(** * llava/llava_pretrain_data.py: the LLaVA pre-training captioning data pipeline

    A shallow embedding of [preprocess_multimodal], [preprocess_plain],
    [expand2square], [LLaVAPretrainCaptioningDataset] and [collate_fn],
    with the properties of the pipeline stated and proved over it.

    Conventions of the embedding:
    - a Python [str] is the list of its Unicode code points ([pystr]);
    - a Python [int] is a [Z]; lengths and shapes are [nat];
    - the sentence dicts of a conversation are mutable objects: they live in
      a store ([heap]) and conversations hold references to them, so that the
      in-place writes of the two preprocessing functions and the
      [copy.deepcopy] of [__getitem__] are modelled as such;
    - an exception is a value of [exn]; code that can raise runs in the
      error monad [exn + A] or, when it also touches the store, in [M]. *)

From Stdlib Require Import ZArith NArith String Ascii List Lia QArith Qround.
From stdpp Require Import base option list gmap.

Open Scope Z_scope.

(** ** Python strings *)

Module PyStr.

Definition pystr := list N.

(** A string literal of the source. *)
Definition py (s : string) : pystr := map N_of_ascii (list_ascii_of_string s).

(** [str.isspace] on one character, the table of CPython's
    [_PyUnicode_IsWhitespace]. *)
Definition isspace (c : N) : bool :=
  ((9 <=? c) && (c <=? 13) || (28 <=? c) && (c <=? 32)
   || (c =? 133) || (c =? 160) || (c =? 5760)
   || (8192 <=? c) && (c <=? 8202)
   || (c =? 8232) || (c =? 8233) || (c =? 8239) || (c =? 8287)
   || (c =? 12288))%N.

Fixpoint lstrip (s : pystr) : pystr :=
  match s with
  | c :: s' => if isspace c then lstrip s' else s
  | [] => []
  end.

Definition rstrip (s : pystr) : pystr := rev (lstrip (rev s)).

(** [s.strip()] *)
Definition strip (s : pystr) : pystr := rstrip (lstrip s).

(** [s.startswith(p)] *)
Fixpoint startswith (p s : pystr) : bool :=
  match p, s with
  | [], _ => true
  | a :: p', b :: s' => (a =? b)%N && startswith p' s'
  | _ :: _, [] => false
  end.

(** [p in s] *)
Fixpoint contains (p s : pystr) : bool :=
  startswith p s ||
  match s with
  | [] => false
  | _ :: s' => contains p s'
  end.

(** [s.replace(old, new)] for a non-empty [old]: the occurrences of [old]
    are found in one scan from the left and do not overlap. [skip] counts
    the characters of a matched occurrence still to be passed over. *)
Fixpoint replace_from (old new : pystr) (skip : nat) (s : pystr) : pystr :=
  match s with
  | [] => []
  | c :: s' =>
      match skip with
      | S k => replace_from old new k s'
      | O =>
          if startswith old s
          then new ++ replace_from old new (length old - 1) s'
          else c :: replace_from old new 0 s'
      end
  end.

Definition replace (old new s : pystr) : pystr := replace_from old new 0 s.

(** [s.endswith(p)] *)
Definition endswith (p s : pystr) : bool := startswith (rev p) (rev s).

End PyStr.

Import PyStr.

(** ** Module constants *)

Definition DEFAULT_IMAGE_TOKEN : pystr := py "<image>".
Definition IGNORE_INDEX : Z := -100.

(** ** The per-sentence rewriting of [preprocess_multimodal] (lines 20-27)

    The value that the five assignments of the loop body leave in a
    sentence, as a function of the value they find there. *)

Definition strip_image_token (value : pystr) : pystr :=
  if contains DEFAULT_IMAGE_TOKEN value then
    let value := strip (replace DEFAULT_IMAGE_TOKEN [] value) in
    let value := DEFAULT_IMAGE_TOKEN ++ py (String "010" EmptyString) ++ value in
    let value := strip value in
    let value := replace DEFAULT_IMAGE_TOKEN [] value in
    strip value
  else value.

(** ** Exceptions, the store of sentence dicts, and the monad of the code *)

Inductive exn : Type :=
  | AssertionError
  | TypeError
  | ValueError
  | IndexError
  | KeyError
  | RuntimeError
  | FileNotFoundError
  | Dangling.  (* a reference to no object: cannot arise in Python, kept so
                  that a lookup in the store is total *)

(** One turn of a conversation, the dict [{"from": ..., "value": ...}]. *)
Record sentence : Type := Sentence { sfrom : pystr; value : pystr }.

Definition loc : Type := positive.

Abbreviation heap := (gmap loc sentence).

Definition M (A : Type) : Type := heap -> (exn + A) * heap.

Definition ret {A} (a : A) : M A := fun h => (inr a, h).

Definition raise {A} (e : exn) : M A := fun h => (inl e, h).

Definition bind {A B} (m : M A) (k : A -> M B) : M B :=
  fun h =>
    match m h with
    | (inr a, h') => k a h'
    | (inl e, h') => (inl e, h')
    end.

Definition ebind {A B} (r : exn + A) (k : A -> exn + B) : exn + B :=
  match r with
  | inr a => k a
  | inl e => inl e
  end.

(** A computation that cannot touch the store, run inside [M]. *)
Definition lift {A} (r : exn + A) : M A := fun h => (r, h).

Notation "'let*' x ':=' c 'in' k" := (bind c (fun x => k))
  (at level 10, x pattern, c at level 100, k at level 200, only parsing).
Notation "'let?' x ':=' c 'in' k" := (ebind c (fun x => k))
  (at level 10, x pattern, c at level 100, k at level 200, only parsing).

(** [assert b] *)
Definition py_assert (b : bool) : M unit :=
  if b then ret tt else raise AssertionError.

(** [sentence['value']] *)
Definition get_value (l : loc) : M pystr :=
  fun h =>
    match h !! l with
    | Some s => (inr (value s), h)
    | None => (inl Dangling, h)
    end.

(** [sentence['value'] = v] *)
Definition set_value (l : loc) (v : pystr) : M unit :=
  fun h =>
    match h !! l with
    | Some s => (inr tt, <[l := Sentence (sfrom s) v]> h)
    | None => (inl Dangling, h)
    end.

(** A new dict object. *)
Definition alloc (s : sentence) : M loc :=
  fun h => let l := fresh (dom h) in (inr l, <[l := s]> h).

(** [for x in l: body(x)] *)
Fixpoint for_each {A} (body : A -> M unit) (l : list A) : M unit :=
  match l with
  | [] => ret tt
  | x :: l' => let* _ := body x in for_each body l'
  end.

(** [l[i]] on a Python list, for an index of either sign. *)
Definition py_index {A} (l : list A) (i : Z) : exn + A :=
  let n := Z.of_nat (length l) in
  let j := if i <? 0 then i + n else i in
  if (0 <=? j) && (j <? n) then
    match l !! Z.to_nat j with
    | Some x => inr x
    | None => inl IndexError
    end
  else inl IndexError.

(** ** preprocess_multimodal (lines 17-29) *)

(** The body of the inner loop, on the dict [sentence]. *)
Definition strip_image_placeholder (sentence : loc) : M unit :=
  let* v := get_value sentence in
  if contains DEFAULT_IMAGE_TOKEN v then
    let* v := get_value sentence in
    let* _ := set_value sentence (strip (replace DEFAULT_IMAGE_TOKEN [] v)) in
    let* v := get_value sentence in
    let* _ := set_value sentence
                (DEFAULT_IMAGE_TOKEN ++ py (String "010" EmptyString) ++ v) in
    let* v := get_value sentence in
    let* _ := set_value sentence (strip v) in
    let* v := get_value sentence in
    let* _ := set_value sentence (replace DEFAULT_IMAGE_TOKEN [] v) in
    let* v := get_value sentence in
    set_value sentence (strip v)
  else ret tt.

Definition preprocess_multimodal (sources : list (list loc)) : M (list (list loc)) :=
  let* _ := for_each (fun source => for_each strip_image_placeholder source) sources in
  ret sources.

(** ** The tokenizer contract *)

Record tokenizer : Type := Tokenizer {
  pad_token_id : Z;
  eos_token_id : Z;
  model_max_length : Z;
  encode : pystr -> list Z   (* [tokenizer(prompt)["input_ids"]] *)
}.

(** ** preprocess_plain (lines 32-54) *)

(** [torch.tensor(rows)] on a list of lists of ints: the rows must have one
    length. A 2-D integer tensor is the list of its rows. *)
Definition torch_tensor (rows : list (list Z)) : exn + list (list Z) :=
  match rows with
  | [] => inr []
  | r :: rest =>
      if forallb (fun r' => length r' =? length r)%nat rest
      then inr rows else inl ValueError
  end.

(** [target[:n] = x] for a Python list [target] and an int [x]: a slice of a
    list is assigned from an iterable only, CPython raises [TypeError]. *)
Definition list_setslice_int (target : list Z) (n : nat) (x : Z) : exn + list Z :=
  inl TypeError.

Record data_dict : Type := DataDict {
  input_ids : list (list Z);
  labels : list (list Z)
}.

Section Plain.

(** [conversation_lib.default_conversation.sep], the separator of the
    "plain" template; llava/llava/conversation.py is not part of the
    sources at hand, the separator is a parameter. *)
Variable sep : pystr.

(** The first loop (lines 35-41). *)
Fixpoint plain_conversations (sources : list (list loc)) : M (list pystr) :=
  match sources with
  | [] => ret []
  | source :: rest =>
      let* _ := py_assert (length source =? 2)%nat in
      let* s0 := lift (py_index source 0) in
      let* _ := set_value s0 [] in
      let* s0 := lift (py_index source 0) in
      let* v0 := get_value s0 in
      let* s1 := lift (py_index source 1) in
      let* v1 := get_value s1 in
      let conversation := v0 ++ v1 ++ sep in
      let* conversations := plain_conversations rest in
      ret (conversation :: conversations)
  end.

(** [len(tokenizer(source[0]['value'])["input_ids"])] (line 50), the length
    of the prefix of the labels to mask. *)
Definition tokenized_len (tok : tokenizer) (source : list loc) : M nat :=
  let* s0 := lift (py_index source 0) in
  let* v0 := get_value s0 in
  ret (length (encode tok v0)).

(** The second loop (lines 48-52), over [zip(targets, sources)]. *)
Fixpoint mask_targets (tok : tokenizer) (targets : list (list Z))
    (sources : list (list loc)) : M (list (list Z)) :=
  match targets, sources with
  | target :: targets', source :: sources' =>
      let* tokenized_len := tokenized_len tok source in
      let* target :=
        if (0 <? tokenized_len)%nat
        then lift (list_setslice_int target tokenized_len IGNORE_INDEX)
        else ret target in
      let* targets' := mask_targets tok targets' sources' in
      ret (target :: targets')
  | _, _ => ret []
  end.

Definition preprocess_plain (sources : list (list loc)) (tok : tokenizer)
    : M data_dict :=
  let* conversations := plain_conversations sources in
  let input_ids :=
    map (fun prompt => encode tok prompt ++ [eos_token_id tok]) conversations in
  let targets := input_ids in   (* copy.deepcopy of lists of ints *)
  let* targets := mask_targets tok targets sources in
  let* input_ids := lift (torch_tensor input_ids) in
  let* targets := lift (torch_tensor targets) in
  ret (DataDict input_ids targets).

End Plain.

(** ** Images and expand2square (lines 57-76) *)

Definition IMAGENET_MEAN : Q * Q * Q := (485 # 1000, 456 # 1000, 406 # 1000)%Q.

(** [int(x)] on a number: truncation towards zero. *)
Definition py_int (x : Q) : Z := Z.quot (Qnum x) (Z.pos (Qden x)).

Definition color : Type := Z * Z * Z.

(** A PIL image: its mode, its size [(width, height)] and its pixels, read
    at column [x] and row [y]. *)
Record pil_image : Type := PilImage {
  mode : pystr;
  size : Z * Z;
  getpixel : Z -> Z -> color
}.

(** [Image.new(mode, size, color)] *)
Definition Image_new (mode : pystr) (size : Z * Z) (c : color) : pil_image :=
  PilImage mode size (fun _ _ => c).

(** [result.paste(im, box)] with [box] the upper left corner. *)
Definition paste (result im : pil_image) (box : Z * Z) : pil_image :=
  let '(x0, y0) := box in
  let '(w, h) := size im in
  PilImage (mode result) (size result)
    (fun x y =>
       if (x0 <=? x) && (x <? x0 + w) && (y0 <=? y) && (y <? y0 + h)
       then getpixel im (x - x0) (y - y0)
       else getpixel result x y).

Definition expand2square (pil_img : pil_image) (background_color : color)
    : pil_image :=
  let '(width, height) := size pil_img in
  if width =? height then pil_img
  else if width >? height then
    let result := Image_new (mode pil_img) (width, width) background_color in
    paste result pil_img (0, (width - height) / 2)
  else
    let result := Image_new (mode pil_img) (height, height) background_color in
    paste result pil_img ((height - width) / 2, 0).

(** ** LLaVAPretrainCaptioningDataset (lines 78-147) *)

(** A pixel tensor: its shape and its entries in row-major order. The
    entries are carried along and never computed on; rationals stand for
    the floats. *)
Record tensor : Type := Tensor { shape : list nat; data : list Q }.

(** [torch.zeros] of the given dimensions *)
Definition torch_zeros (dims : list Z) : exn + tensor :=
  if forallb (fun d => 0 <=? d) dims then
    let shape := map Z.to_nat dims in
    inr (Tensor shape (replicate (foldr Nat.mul 1%nat shape) 0%Q))
  else inl RuntimeError.

(** The image processor contract: a crop size and the preprocessing of an
    image into its pixel tensor ([preprocess(...)['pixel_values'][0]]). *)
Record image_processor : Type := ImageProcessor {
  crop_size_height : Z;
  crop_size_width : Z;
  preprocess : pil_image -> exn + tensor
}.

(** One record of the JSON file; [image] is [None] when the key is absent. *)
Record item : Type := Item {
  image : option pystr;
  conversations : list loc
}.

Record dataset : Type := Dataset {
  ds_tokenizer : tokenizer;
  pad2square : bool;
  background_color : color;
  image_root : pystr;
  list_data_dict : list item;
  processor : image_processor
}.

(** ['image' in item.keys()] *)
Definition has_image (it : item) : bool :=
  match image it with Some _ => true | None => false end.

(** [__init__], on the list [data] that [json.load] returns and the
    processor that [CLIPImageProcessor.from_pretrained] returns. *)
Definition init (tok : tokenizer) (pad2square : bool) (data : list item)
    (proc : image_processor) : exn + dataset :=
  let background_color :=
    let '(r, g, b) := IMAGENET_MEAN in
    (py_int (r * 255), py_int (g * 255), py_int (b * 255))%Q in
  let image_root := py "/mnt/bn/vgfm2/test_dit/pretraining_data" in
  let list_data_dict :=
    fold_left (fun acc it => if has_image it then acc ++ [it] else acc) data [] in
  if crop_size_height proc =? crop_size_width proc
  then inr (Dataset tok pad2square background_color image_root list_data_dict proc)
  else inl AssertionError.

(** [__len__] *)
Definition len (self : dataset) : nat := length (list_data_dict self).

(** [os.path.join(a, b)] of posixpath. *)
Definition os_path_join (a b : pystr) : pystr :=
  if startswith (py "/") b then b
  else if (match a with [] => true | _ => false end) || endswith (py "/") a
  then a ++ b
  else a ++ py "/" ++ b.

(** [copy.deepcopy] of a list of conversations. The memo maps the dicts
    already copied to their copies, so that sharing is kept. *)
Definition load (l : loc) : M sentence :=
  fun h =>
    match h !! l with
    | Some s => (inr s, h)
    | None => (inl Dangling, h)
    end.

Definition deepcopy_dict (memo : gmap loc loc) (l : loc) : M (loc * gmap loc loc) :=
  match memo !! l with
  | Some l' => ret (l', memo)
  | None =>
      let* s := load l in
      let* l' := alloc s in
      ret (l', <[l := l']> memo)
  end.

Fixpoint deepcopy_list (memo : gmap loc loc) (ls : list loc)
    : M (list loc * gmap loc loc) :=
  match ls with
  | [] => ret ([], memo)
  | l :: ls' =>
      let* (l', memo) := deepcopy_dict memo l in
      let* (ls'', memo) := deepcopy_list memo ls' in
      ret (l' :: ls'', memo)
  end.

Fixpoint deepcopy_lists (memo : gmap loc loc) (lss : list (list loc))
    : M (list (list loc) * gmap loc loc) :=
  match lss with
  | [] => ret ([], memo)
  | ls :: lss' =>
      let* (ls', memo) := deepcopy_list memo ls in
      let* (lss'', memo) := deepcopy_lists memo lss' in
      ret (ls' :: lss'', memo)
  end.

Definition deepcopy (lss : list (list loc)) : M (list (list loc)) :=
  let* (lss', _) := deepcopy_lists ∅ lss in
  ret lss'.

(** One tokenized example, the dict that [__getitem__] returns. The outer
    option of [ex_image] is the presence of the key, the inner one tells a
    tensor from [None]. *)
Record example : Type := Example_ {
  ex_input_ids : list Z;
  ex_labels : list Z;
  ex_image : option (option tensor)
}.

Section GetItem.

Variable sep : pystr.

(** [Image.open(path).convert('RGB')]: the file system and the decoder. *)
Variable Image_open_rgb : pystr -> exn + pil_image.

(** [image.resize(size, Image.Resampling.BICUBIC)] *)
Variable Image_resize_bicubic : pil_image -> Z * Z -> exn + pil_image.

(** [__getitem__] for an [int] index. *)
Definition getitem (self : dataset) (i : Z) : M example :=
  let* sources := lift (py_index (list_data_dict self) i) in
  let sources := [sources] in
  let* _ := py_assert (length sources =? 1)%nat in
  let* s0 := lift (py_index sources 0) in
  let* _ := py_assert (has_image s0) in
  let* it := lift (py_index (list_data_dict self) i) in
  let* image_file :=
    lift (match image it with Some f => inr f | None => inl KeyError end) in
  let image_folder := image_root self in
  let* img := lift (Image_open_rgb (os_path_join image_folder image_file)) in
  let target_size := crop_size_height (processor self) in
  let img := if pad2square self then expand2square img (background_color self)
             else img in
  let* img := lift (Image_resize_bicubic img (target_size, target_size)) in
  let* img := lift (preprocess (processor self) img) in
  let* copied := deepcopy (map conversations sources) in
  let* sources := preprocess_multimodal copied in
  let* data_dict := preprocess_plain sep sources (ds_tokenizer self) in
  let* ids0 := lift (py_index (input_ids data_dict) 0) in
  let* labels0 := lift (py_index (labels data_dict) 0) in
  let* it := lift (py_index (list_data_dict self) i) in
  let* image_entry :=
    if has_image it then ret img
    else lift (torch_zeros [3; target_size; target_size]) in
  ret (Example_ ids0 labels0 (Some (Some image_entry))).

(** The store after the fetches of the indices [idx], one after the other. *)
Fixpoint store_after (self : dataset) (idx : list Z) (h : gmap loc sentence)
    : gmap loc sentence :=
  match idx with
  | [] => h
  | i :: idx' =>
      store_after self idx' (snd (getitem self i h))
  end.

End GetItem.

(** ** collate_fn (lines 150-191) *)

(** The [images] entry of a batch: one stacked tensor, or the list of the
    per-example entries. *)
Inductive images_entry : Type :=
  | Stacked (t : tensor)
  | Unstacked (l : list (option tensor)).

Record batch : Type := Batch {
  b_input_ids : list (list Z);
  b_labels : list (list Z);
  b_attention_mask : list (list bool);
  b_images : option images_entry   (* [None]: the batch has no such key *)
}.

(** [t.shape[-1]] of a 2-D tensor with at least one row. *)
Definition ncols {A} (t : list (list A)) : nat :=
  match t with
  | r :: _ => length r
  | [] => 0%nat
  end.

(** [torch.nn.utils.rnn.pad_sequence(sequences, batch_first=True,
    padding_value=v)] on 1-D tensors. *)
Definition pad_sequence (sequences : list (list Z)) (padding_value : Z)
    : exn + list (list Z) :=
  match sequences with
  | [] => inl RuntimeError
  | _ :: _ =>
      let max_len := max_list (map length sequences) in
      inr (map (fun s => s ++ replicate (max_len - length s) padding_value)
               sequences)
  end.

(** [torch.ones(size=(n, m), dtype=...) * v] *)
Definition torch_full (n : nat) (m : Z) (v : Z) : exn + list (list Z) :=
  if m <? 0 then inl RuntimeError
  else inr (replicate n (replicate (Z.to_nat m) v)).

(** [torch.cat([a, b], dim=1)] *)
Definition torch_cat_dim1 (a b : list (list Z)) : exn + list (list Z) :=
  if (length a =? length b)%nat then inr (zip_with app a b)
  else inl RuntimeError.

(** The stop of the slice [[:k]] on a sequence of length [n]. *)
Definition slice_stop (n : nat) (k : Z) : nat :=
  if k <? 0 then Z.to_nat (Z.max 0 (Z.of_nat n + k))
  else Z.to_nat (Z.min k (Z.of_nat n)).

(** [t[:, :k]] *)
Definition slice_cols {A} (t : list (list A)) (k : Z) : list (list A) :=
  map (fun r => take (slice_stop (length r) k) r) t.

(** [[instance['image'] for instance in instances]] *)
Fixpoint image_entries (instances : list example)
    : exn + list (option tensor) :=
  match instances with
  | [] => inr []
  | instance :: rest =>
      match ex_image instance with
      | Some x => let? xs := image_entries rest in inr (x :: xs)
      | None => inl KeyError
      end
  end.

(** [all(x is not None and x.shape == images[0].shape for x in images)].
    [images[0].shape] is read only past an [x] that is not [None], hence
    after [images[0]] itself passed the test. *)
Definition all_same_shape (images : list (option tensor)) : bool :=
  forallb (fun x =>
             match x, head images with
             | Some t, Some (Some t0) => bool_decide (shape t = shape t0)
             | _, _ => false
             end) images.

(** [torch.stack(images)] *)
Definition torch_stack (images : list (option tensor)) : exn + tensor :=
  match images with
  | Some t0 :: _ =>
      if forallb (fun x => match x with
                           | Some t => bool_decide (shape t = shape t0)
                           | None => false
                           end) images
      then inr (Tensor (length images :: shape t0)
                       (concat (map (fun x => match x with
                                              | Some t => data t
                                              | None => []
                                              end) images)))
      else inl RuntimeError
  | None :: _ => inl TypeError
  | [] => inl RuntimeError
  end.

Definition collate_fn (instances : list example) (tok : tokenizer)
    (max_length : Z) : exn + batch :=
  let input_ids := map ex_input_ids instances in
  let labels := map ex_labels instances in
  let? input_ids := pad_sequence input_ids (pad_token_id tok) in
  let? labels := pad_sequence labels IGNORE_INDEX in
  let? (input_ids, labels) :=
    if Z.of_nat (ncols input_ids) <? max_length then
      let offset := max_length - Z.of_nat (ncols input_ids) in
      let? pad_tube := torch_full (length input_ids) offset (pad_token_id tok) in
      let? input_ids := torch_cat_dim1 input_ids pad_tube in
      let offset := max_length - Z.of_nat (ncols labels) in
      let? pad_tube := torch_full (length labels) offset IGNORE_INDEX in
      let? labels := torch_cat_dim1 labels pad_tube in
      inr (input_ids, labels)
    else inr (input_ids, labels) in
  let min_max_len := Z.min max_length (model_max_length tok) in
  let input_ids := slice_cols input_ids min_max_len in
  let labels := slice_cols labels min_max_len in
  let attention_mask :=
    map (map (fun x => negb (x =? pad_token_id tok))) input_ids in
  let? first := py_index instances 0 in
  match ex_image first with
  | Some _ =>
      let? images := image_entries instances in
      if all_same_shape images then
        let? stacked := torch_stack images in
        inr (Batch input_ids labels attention_mask (Some (Stacked stacked)))
      else
        inr (Batch input_ids labels attention_mask (Some (Unstacked images)))
  | None => inr (Batch input_ids labels attention_mask None)
  end.

(** ** Notions used in the statements *)

(** Row [s] of a batch of width [W] cut at [L]: what [collate_fn] makes of
    one sequence, with [v] the padding value. *)
Definition padded_row (W L : nat) (v : Z) (s : list Z) : list Z :=
  take L (s ++ replicate (W - length s) v).

(** The largest raw length of a batch, the [M] of the collation rule. *)
Definition max_raw_length (instances : list example) : nat :=
  max_list (map length (map ex_input_ids instances)).

(** The [images] part of [collate_fn] (lines 184-189) on its own. *)
Definition collate_images (instances : list example)
    : exn + option images_entry :=
  let? first := py_index instances 0 in
  match ex_image first with
  | Some _ =>
      let? images := image_entries instances in
      if all_same_shape images then
        let? stacked := torch_stack images in
        inr (Some (Stacked stacked))
      else inr (Some (Unstacked images))
  | None => inr None
  end.

(** No [KeyError] in the [images] part: the first example has no [image]
    key, or every example has one. *)
Definition image_keys_consistent (instances : list example) : Prop :=
  match instances with
  | [] => True
  | first :: _ =>
      ex_image first = None \/ Forall (fun e => ex_image e <> None) instances
  end.

(** [keeps h0 m Q]: run from a store that extends [h0], [m] ends in a store
    that still extends [h0] (every dict of [h0] is there, with the value it
    has in [h0]), whether it returns or raises, and a result that it
    returns satisfies [Q]. *)
Definition keeps (h0 : gmap loc sentence) {A} (m : M A) (Q : A -> Prop)
    : Prop :=
  forall h r h', h0 ⊆ h -> m h = (r, h') ->
    h0 ⊆ h' /\ forall a, r = inr a -> Q a.

(** The references [ls] are to dicts that are not of [h0]. *)
Definition outside (h0 : gmap loc sentence) (ls : list loc) : Prop :=
  Forall (fun l => l ∉ dom h0) ls.

(** The copies that the memo of [copy.deepcopy] holds are not of [h0]. *)
Definition memo_outside (h0 : gmap loc sentence) (memo : gmap loc loc) : Prop :=
  forall k k', memo !! k = Some k' -> k' ∉ dom h0.

(** Every reference of the conversations is to a dict of the store. *)
Definition allocated (h : gmap loc sentence) (sources : list (list loc)) : Prop :=
  Forall (Forall (fun l => is_Some (h !! l))) sources.

(** [h'] has the dicts of [h], and those with an empty text in [h] have an
    empty text in [h']. *)
Definition blank_le (h h' : gmap loc sentence) : Prop :=
  forall l s, h !! l = Some s ->
    exists s', h' !! l = Some s' /\ (value s = [] -> value s' = []).

(** The first turn of [source] has the empty text. *)
Definition first_blank (h : gmap loc sentence) (source : list loc) : Prop :=
  exists s0 s, py_index source 0 = inr s0 /\ h !! s0 = Some s /\ value s = [].

(** The ids of a well-formed tokenizer are indices into its vocabulary. *)
Definition valid_ids (tok : tokenizer) : Prop :=
  0 <= eos_token_id tok /\ forall s x, x ∈ encode tok s -> 0 <= x.

(** ** Small inputs for the examples *)

(** A tokenizer by characters: the id of a character is its code point
    plus 3; the ids 0 and 2 are the padding and the end of sequence. *)
Definition tok_demo : tokenizer :=
  Tokenizer 0 2 10 (map (fun c => Z.of_N c + 3)).

(** A tokenizer that puts a begin-of-sequence id before the ids of the
    text, as those of the LLaMA family do. *)
Definition tok_bos : tokenizer :=
  Tokenizer 0 2 10 (fun s => 1 :: map (fun c => Z.of_N c + 3) s).

Definition batch_demo : list example :=
  [Example_ [5; 6; 7] [5; 6; 7] None; Example_ [8; 2] [8; 2] None].

Definition img_a : tensor := Tensor [1; 1; 2]%nat [1 # 2; 1 # 4]%Q.
Definition img_b : tensor := Tensor [1; 2; 1]%nat [1 # 2; 1 # 4]%Q.
Definition img_c : tensor := Tensor [1; 1; 2]%nat [3 # 4; 1 # 1]%Q.

Definition img_wide : pil_image :=
  PilImage (py "RGB") (4, 2) (fun x y => (x, y, 0)).

Definition proc_demo : image_processor :=
  ImageProcessor 336 336 (fun _ => inr img_a).

Definition data_demo : list item :=
  [Item (Some (py "a.jpg")) [1%positive; 2%positive];
   Item None [3%positive; 4%positive];
   Item (Some (py "b.jpg")) [5%positive; 6%positive]].

Definition sep_demo : pystr := py (String "010" EmptyString).

(** The store of one record, [{"image": "a.jpg", "conversations":
    [{"from": "human", "value": "<image>\ndescribe"},
     {"from": "gpt", "value": "a cat"}]}]. *)
Definition heap_demo : gmap loc sentence :=
  <[1%positive := Sentence (py "human")
                    (py "<image>" ++ sep_demo ++ py "describe")]>
  (<[2%positive := Sentence (py "gpt") (py "a cat")]> ∅).

(** A store with one conversation, whose first turn nests the placeholder. *)
Definition nested_heap : gmap loc sentence :=
  <[1%positive := Sentence (py "human") (py "<im<im<image>age>age>")]>
  (<[2%positive := Sentence (py "gpt") (py "a cat")]> ∅).

Definition ds_demo : dataset :=
  Dataset tok_demo true (123, 116, 103) (py "/data")
          [Item (Some (py "a.jpg")) [1%positive; 2%positive]] proc_demo.

Definition open_demo (path : pystr) : exn + pil_image :=
  if startswith (py "/data/") path then inr img_wide else inl FileNotFoundError.

Definition resize_demo (img : pil_image) (size : Z * Z) : exn + pil_image :=
  inr (PilImage (mode img) size (getpixel img)).

(** ** Notions used in the further statements *)

(** What the loop body of [preprocess_multimodal] makes of a sentence. *)
Definition rewrite_sentence (s : sentence) : sentence :=
  Sentence (sfrom s) (strip_image_token (value s)).

(** What line 39 of [preprocess_plain] makes of a first turn. *)
Definition blank_sentence (s : sentence) : sentence := Sentence (sfrom s) [].

(** The dicts [source[0]] of the conversations. *)
Definition first_turns (sources : list (list loc)) : list loc :=
  omap head sources.

(** A computation that ends in the store it starts from. *)
Definition readonly {A} (m : M A) : Prop := forall h, snd (m h) = h.

(** Rows of one length, what makes a list of lists a 2-D tensor. *)
Definition rectangular (rows : list (list Z)) : Prop :=
  forall r r', r ∈ rows -> r' ∈ rows -> length r = length r'.

(** The text of the second turn of a two-turn conversation. *)
Definition second_text (h : gmap loc sentence) (source : list loc) : pystr :=
  match source with
  | [_; s1] => match h !! s1 with Some b => value b | None => [] end
  | _ => []
  end.

(** No second turn of the conversations is the dict of a first turn. *)
Definition turns_apart (sources : list (list loc)) : Prop :=
  forall source s1, source ∈ sources -> source !! 1%nat = Some s1 ->
    s1 ∉ first_turns sources.

(** A store with the sentences of three captions. *)
Definition heap_two : gmap loc sentence :=
  <[1%positive := Sentence (py "human") (py "<image>" ++ sep_demo ++ py "describe")]>
  (<[2%positive := Sentence (py "gpt") (py "a cat")]>
  (<[3%positive := Sentence (py "human") (py "<image>")]>
  (<[4%positive := Sentence (py "gpt") (py "a dog")]>
  (<[6%positive := Sentence (py "gpt") (py "a horse")]> ∅)))).

(** An image of one row. *)
Definition img_flat : pil_image :=
  PilImage (py "RGB") (4, 1) (fun x y => (x, y, 0)).

(** * Properties *)

(** ** Python strings *)

Example strip_image_token_caption :
  strip_image_token (py "<image> describe ") = py "describe".
Proof. reflexivity. Qed.

Example strip_image_token_nested :
  strip_image_token (py "<im<im<image>age>age>") = py "<image>".
Proof. reflexivity. Qed.

Lemma lstrip_first (s : pystr) c s' : lstrip s = c :: s' -> isspace c = false.
Proof.
  induction s as [|a s IH]; simpl; [discriminate|].
  destruct (isspace a) eqn:Ha; [exact IH|].
  intros [= <- _]. exact Ha.
Qed.

Lemma lstrip_suffix (s : pystr) : exists p, s = p ++ lstrip s /\ forallb isspace p = true.
Proof.
  induction s as [|a s [p [Hp Hall]]]; simpl.
  - exists []. done.
  - destruct (isspace a) eqn:Ha.
    + exists (a :: p). simpl. rewrite Ha, Hall. split; [congruence|done].
    + exists []. done.
Qed.

Lemma strip_no_leading_space (s : pystr) c s' :
  strip s = c :: s' -> isspace c = false.
Proof.
  unfold strip, rstrip. intros H.
  destruct (lstrip s) as [|a t] eqn:Hl; [discriminate|].
  pose proof (lstrip_first _ _ _ Hl) as Ha.
  destruct (lstrip_suffix (rev (a :: t))) as [p [Hp Hall]].
  apply (f_equal (@rev N)) in Hp. rewrite rev_involutive, rev_app_distr in Hp.
  rewrite H in Hp. simpl in Hp. injection Hp as -> _. exact Ha.
Qed.

Lemma strip_no_trailing_space (s : pystr) c s' :
  strip s = s' ++ [c] -> isspace c = false.
Proof.
  unfold strip, rstrip. intros H.
  apply (f_equal (@rev N)) in H. rewrite rev_involutive, rev_app_distr in H.
  simpl in H. eapply lstrip_first, H.
Qed.

(** ** The monad *)

Lemma bind_inr {A B} (m : M A) (k : A -> M B) h a h' :
  m h = (inr a, h') -> bind m k h = k a h'.
Proof. unfold bind. by intros ->. Qed.

Lemma bind_inl {A B} (m : M A) (k : A -> M B) h e h' :
  m h = (inl e, h') -> bind m k h = (inl e, h').
Proof. unfold bind. by intros ->. Qed.

Lemma get_value_ok l h s : h !! l = Some s -> get_value l h = (inr (value s), h).
Proof. unfold get_value. by intros ->. Qed.

Lemma set_value_ok l v h s :
  h !! l = Some s -> set_value l v h = (inr tt, <[l := Sentence (sfrom s) v]> h).
Proof. unfold set_value. by intros ->. Qed.

(** ** preprocess_multimodal *)

(** The writes of the inner loop body amount to one write of
    [strip_image_token]. *)
Lemma strip_image_placeholder_ok l h s :
  h !! l = Some s ->
  strip_image_placeholder l h =
    (inr tt,
     if contains DEFAULT_IMAGE_TOKEN (value s)
     then <[l := Sentence (sfrom s) (strip_image_token (value s))]> h
     else h).
Proof.
  intros Hl. unfold strip_image_placeholder.
  rewrite (bind_inr _ _ _ _ _ (get_value_ok _ _ _ Hl)).
  unfold strip_image_token.
  destruct (contains DEFAULT_IMAGE_TOKEN (value s)); [|done].
  rewrite (bind_inr _ _ _ _ _ (get_value_ok _ _ _ Hl)).
  rewrite (bind_inr _ _ _ _ _ (set_value_ok _ _ _ _ Hl)).
  repeat (
    erewrite bind_inr; [|apply get_value_ok, lookup_insert_eq];
    erewrite bind_inr; [|apply set_value_ok, lookup_insert_eq];
    rewrite insert_insert_eq; simpl).
  erewrite bind_inr; [|apply get_value_ok, lookup_insert_eq].
  erewrite set_value_ok; [|apply lookup_insert_eq].
  by rewrite insert_insert_eq.
Qed.

Lemma strip_image_token_unchanged (v : pystr) :
  contains DEFAULT_IMAGE_TOKEN v = false -> strip_image_token v = v.
Proof. unfold strip_image_token. by intros ->. Qed.

Lemma strip_image_token_stripped (v : pystr) :
  contains DEFAULT_IMAGE_TOKEN v = true ->
  (forall c s', strip_image_token v = c :: s' -> isspace c = false) /\
  (forall c s', strip_image_token v = s' ++ [c] -> isspace c = false).
Proof.
  unfold strip_image_token. intros ->. split; intros c s' H.
  - eapply strip_no_leading_space, H.
  - eapply strip_no_trailing_space, H.
Qed.

Lemma lstrip_length (s : pystr) : (length (lstrip s) <= length s)%nat.
Proof.
  induction s as [|c s IH]; simpl; [lia|]. destruct (isspace c); simpl; lia.
Qed.

Lemma lstrip_fixed (c : N) (s : pystr) :
  lstrip (c :: s) = c :: s -> isspace c = false.
Proof.
  simpl. destruct (isspace c); [|done]. intros H.
  pose proof (lstrip_length s) as Hlen. rewrite H in Hlen. simpl in Hlen. lia.
Qed.

Lemma lstrip_idem (s : pystr) : lstrip (lstrip s) = lstrip s.
Proof.
  destruct (lstrip s) as [|c t] eqn:E; [done|].
  apply lstrip_first in E. simpl. by rewrite E.
Qed.

Lemma strip_fixed (s : pystr) :
  lstrip (strip s) = strip s /\ rstrip (strip s) = strip s.
Proof.
  split.
  - destruct (strip s) as [|c t] eqn:E; [done|].
    apply strip_no_leading_space in E. simpl. by rewrite E.
  - unfold strip, rstrip. by rewrite rev_involutive, lstrip_idem.
Qed.

Lemma replace_absent (old new s : pystr) :
  contains old s = false -> replace old new s = s.
Proof.
  unfold replace. induction s as [|c s IH]; [done|].
  cbn [contains replace_from]. intros [H1 H2]%orb_false_elim.
  rewrite H1. f_equal. by apply IH.
Qed.

(** Where the removal of the placeholder leaves none behind, the sentence
    comes out without one. *)
Lemma strip_image_token_deleted (v : pystr) :
  contains DEFAULT_IMAGE_TOKEN (strip (replace DEFAULT_IMAGE_TOKEN [] v)) = false ->
  contains DEFAULT_IMAGE_TOKEN v = true ->
  contains DEFAULT_IMAGE_TOKEN (strip_image_token v) = false.
Proof.
  unfold strip_image_token. intros Habsent ->.
  destruct (strip_fixed (replace DEFAULT_IMAGE_TOKEN [] v)) as [Hl Hr].
  set (w := strip (replace DEFAULT_IMAGE_TOKEN [] v)) in *.
  destruct (rev w) as [|c r] eqn:Hrev.
  - apply (f_equal (@rev N)) in Hrev. rewrite rev_involutive in Hrev.
    rewrite Hrev. reflexivity.
  - assert (Hc : isspace c = false).
    { unfold rstrip in Hr. apply (f_equal (@rev N)) in Hr.
      rewrite rev_involutive, Hrev in Hr. by apply lstrip_fixed in Hr. }
    assert (Hstrip : strip (DEFAULT_IMAGE_TOKEN ++ py (String "010" EmptyString) ++ w)
                     = DEFAULT_IMAGE_TOKEN ++ py (String "010" EmptyString) ++ w).
    { unfold strip. change (lstrip (DEFAULT_IMAGE_TOKEN ++ ?x))
        with (DEFAULT_IMAGE_TOKEN ++ x).
      unfold rstrip. rewrite !rev_app_distr, Hrev.
      cbn [app lstrip]. rewrite Hc.
      change (c :: (r ++ ?x) ++ ?y) with (((c :: r) ++ x) ++ y).
      by rewrite <- Hrev, <- !rev_app_distr, rev_involutive. }
    rewrite Hstrip.
    assert (Hreplace : replace DEFAULT_IMAGE_TOKEN []
                         (DEFAULT_IMAGE_TOKEN ++ py (String "010" EmptyString) ++ w)
                       = py (String "010" EmptyString) ++ w).
    { unfold replace. cbn -[contains]. f_equal. by apply replace_absent. }
    rewrite Hreplace.
    assert (Hfinal : strip (py (String "010" EmptyString) ++ w) = w).
    { unfold strip. change (lstrip (py (String "010" EmptyString) ++ w))
        with (lstrip w). by rewrite Hl, Hr. }
    by rewrite Hfinal.
Qed.

(** C6, at the input [[{"from": "human", "value": "<im<im<image>age>age>"},
    {"from": "gpt", "value": "a cat"}]]: the value of the first sentence
    contains the placeholder, and after [preprocess_multimodal] it is the
    placeholder itself; one scan of [replace] puts together what the scan
    before left in pieces. *)
Theorem preprocess_multimodal_nested_placeholder :
  nested_heap !! 1%positive
    = Some (Sentence (py "human") (py "<im<im<image>age>age>")) /\
  contains DEFAULT_IMAGE_TOKEN (py "<im<im<image>age>age>") = true /\
  fst (preprocess_multimodal [[1%positive; 2%positive]] nested_heap)
    = inr [[1%positive; 2%positive]] /\
  snd (preprocess_multimodal [[1%positive; 2%positive]] nested_heap) !! 1%positive
    = Some (Sentence (py "human") (py "<image>")) /\
  contains DEFAULT_IMAGE_TOKEN (py "<image>") = true.
Proof. vm_compute. auto 6. Qed.

(** ** collate_fn *)

Lemma zip_with_app_replicate (rows : list (list Z)) (tube : list Z) :
  zip_with app rows (replicate (length rows) tube) = map (fun r => r ++ tube) rows.
Proof. induction rows as [|r rows IH]; simpl; [done|]. by rewrite IH. Qed.

Lemma torch_cat_tube (rows : list (list Z)) (tube : list Z) :
  torch_cat_dim1 rows (replicate (length rows) tube)
  = inr (map (fun r => r ++ tube) rows).
Proof.
  unfold torch_cat_dim1.
  by rewrite length_replicate, Nat.eqb_refl, zip_with_app_replicate.
Qed.

Lemma pad_sequence_ok (sequences : list (list Z)) (v : Z) :
  sequences <> [] ->
  pad_sequence sequences v =
    inr (map (fun s => s ++ replicate (max_list (map length sequences) - length s) v)
             sequences).
Proof. destruct sequences; [done|]. done. Qed.

Lemma padded_length (sequences : list (list Z)) (v : Z) s :
  s ∈ sequences ->
  length (s ++ replicate (max_list (map length sequences) - length s) v)
  = max_list (map length sequences).
Proof.
  intros Hs. rewrite length_app, length_replicate.
  assert (length s <= max_list (map length sequences))%nat; [|lia].
  apply max_list_elem_of_le, list_elem_of_fmap. eauto.
Qed.

Lemma ncols_padded (sequences : list (list Z)) (v : Z) :
  sequences <> [] ->
  ncols (map (fun s => s ++ replicate (max_list (map length sequences) - length s) v)
             sequences)
  = max_list (map length sequences).
Proof.
  destruct sequences as [|s rest]; [done|]. intros _.
  change (length (s ++ replicate (max_list (map length (s :: rest)) - length s) v)
          = max_list (map length (s :: rest))).
  apply padded_length. left.
Qed.

Lemma slice_stop_nonneg (n : nat) (k : Z) :
  0 <= k -> slice_stop n k = Nat.min (Z.to_nat k) n.
Proof. unfold slice_stop. intros H. destruct (Z.ltb_spec k 0); lia. Qed.

(** [collate_fn] on a batch whose examples have as many labels as ids: the
    rows are the raw sequences, padded on the right to the width
    [max(M, max_length)] and cut at the stop of the slice
    [[:min(max_length, model_max_length)]]. *)
Lemma collate_fn_rows (instances : list example) (tok : tokenizer) (max_length : Z) :
  instances <> [] ->
  Forall (fun e => length (ex_input_ids e) = length (ex_labels e)) instances ->
  let W := Nat.max (max_raw_length instances) (Z.to_nat max_length) in
  let L := slice_stop W (Z.min max_length (model_max_length tok)) in
  let ids := map (padded_row W L (pad_token_id tok)) (map ex_input_ids instances) in
  collate_fn instances tok max_length =
    let? images := collate_images instances in
    inr (Batch ids
               (map (padded_row W L IGNORE_INDEX) (map ex_labels instances))
               (map (map (fun x => negb (x =? pad_token_id tok))) ids)
               images).
Proof.
  intros Hne Heq W L ids.
  assert (Hids : map ex_input_ids instances <> []) by (by destruct instances).
  assert (Hlab : map ex_labels instances <> []) by (by destruct instances).
  assert (Hlen : map length (map ex_labels instances)
                 = map length (map ex_input_ids instances)).
  { clear -Heq. induction Heq as [|e l He _ IH]; simpl; [done|]. by rewrite He, IH. }
  unfold collate_fn.
  rewrite (pad_sequence_ok _ _ Hids), (pad_sequence_ok _ _ Hlab). simpl ebind.
  rewrite !ncols_padded by done. rewrite Hlen.
  fold (max_raw_length instances). set (m := max_raw_length instances) in *.
  set (k := Z.min max_length (model_max_length tok)) in *.
  assert (Hrow : forall v (seqs : list (list Z)),
             map length seqs = map length (map ex_input_ids instances) ->
             slice_cols (map (fun s => s ++ replicate (W - length s) v) seqs) k
             = map (padded_row W L v) seqs).
  { intros v seqs Hs. unfold slice_cols. rewrite map_map.
    apply map_ext_in. intros s Hin%list_elem_of_In. unfold padded_row.
    f_equal. unfold L. f_equal.
    rewrite length_app, length_replicate.
    assert (length s <= m)%nat; [|lia].
    unfold m, max_raw_length. rewrite <- Hs.
    apply max_list_elem_of_le, list_elem_of_fmap. eauto. }
  destruct (Z.ltb_spec (Z.of_nat m) max_length) as [Hlt|Hge].
  - unfold torch_full.
    destruct (Z.ltb_spec (max_length - Z.of_nat m) 0) as [?|_]; [lia|].
    simpl ebind.
    rewrite !torch_cat_tube by done. simpl ebind.
    assert (Hpad : forall v (seqs : list (list Z)),
               map length seqs = map length (map ex_input_ids instances) ->
               map (fun r => r ++ replicate (Z.to_nat (max_length - Z.of_nat m)) v)
                   (map (fun s => s ++ replicate (m - length s) v) seqs)
               = map (fun s => s ++ replicate (W - length s) v) seqs).
    { intros v seqs Hs. rewrite map_map.
      apply map_ext_in. intros s Hin%list_elem_of_In.
      rewrite <- app_assoc, <- replicate_add. do 2 f_equal.
      assert (length s <= m)%nat; [|lia].
      unfold m, max_raw_length. rewrite <- Hs.
      apply max_list_elem_of_le, list_elem_of_fmap. eauto. }
    rewrite !Hpad by done. rewrite !Hrow by done.
    unfold collate_images. fold ids.
    destruct (py_index instances 0) as [e|first]; [done|]. simpl.
    destruct (ex_image first); [|done].
    destruct (image_entries instances) as [e|images]; [done|]. simpl.
    destruct (all_same_shape images); [|done].
    by destruct (torch_stack images).
  - simpl ebind.
    replace m with W by lia.
    rewrite !Hrow by done.
    unfold collate_images. fold ids.
    destruct (py_index instances 0) as [e|first]; [done|]. simpl.
    destruct (ex_image first); [|done].
    destruct (image_entries instances) as [e|images]; [done|]. simpl.
    destruct (all_same_shape images); [|done].
    by destruct (torch_stack images).
Qed.

Lemma py_index_0 {A} (x : A) (l : list A) : py_index (x :: l) 0 = inr x.
Proof. reflexivity. Qed.

Lemma image_entries_ok (instances : list example) :
  Forall (fun e => ex_image e <> None) instances ->
  exists images, image_entries instances = inr images.
Proof.
  induction 1 as [|e l He _ [images IH]]; simpl; [eauto|].
  destruct (ex_image e); [|done]. rewrite IH. simpl. eauto.
Qed.

Lemma torch_stack_ok (images : list (option tensor)) :
  all_same_shape images = true -> images <> [] ->
  exists t, torch_stack images = inr t.
Proof.
  destruct images as [|[t0|] rest]; [done| |done]. intros H _.
  unfold all_same_shape in H. unfold torch_stack.
  match goal with |- context [if ?b then _ else _] =>
    replace b with true by (symmetry; exact H) end.
  eauto.
Qed.

Lemma collate_images_ok (instances : list example) :
  instances <> [] -> image_keys_consistent instances ->
  exists images, collate_images instances = inr images.
Proof.
  destruct instances as [|first rest]; [done|]. intros _ Hk.
  unfold collate_images. rewrite py_index_0. cbn [ebind].
  destruct (ex_image first) as [x|] eqn:Hfirst; [|eauto].
  destruct Hk as [Hk|Hk]; [congruence|].
  destruct (image_entries_ok _ Hk) as [images Himages].
  rewrite Himages. cbn [ebind].
  destruct (all_same_shape images) eqn:Hall; [|eauto].
  destruct (torch_stack_ok images Hall) as [t Ht].
  - intros ->. simpl in Himages. rewrite Hfirst in Himages.
    destruct (image_entries rest); done.
  - rewrite Ht. simpl. eauto.
Qed.

Lemma padded_row_length (W L : nat) (v : Z) (s : list Z) :
  (length s <= W)%nat -> length (padded_row W L v s) = Nat.min L W.
Proof.
  intros H. unfold padded_row.
  rewrite length_take, length_app, length_replicate. lia.
Qed.

Lemma raw_length_le (instances : list example) (e : example) :
  e ∈ instances -> (length (ex_input_ids e) <= max_raw_length instances)%nat.
Proof.
  intros He. unfold max_raw_length.
  apply max_list_elem_of_le. rewrite map_map.
  apply list_elem_of_fmap. eauto.
Qed.

Lemma padded_rows_length (W L : nat) (v : Z) (f : example -> list Z)
    (instances : list example) :
  Forall (fun e => length (f e) <= W)%nat instances ->
  Forall (fun r => length r = Nat.min L W)
         (map (padded_row W L v) (map f instances)).
Proof.
  induction 1 as [|e l He _ IH]; simpl; constructor; [|done].
  by apply padded_row_length.
Qed.

Lemma labels_length_le (instances : list example) :
  Forall (fun e => length (ex_input_ids e) = length (ex_labels e)) instances ->
  forall W, (max_raw_length instances <= W)%nat ->
  Forall (fun e => length (ex_input_ids e) <= W)%nat instances /\
  Forall (fun e => length (ex_labels e) <= W)%nat instances.
Proof.
  intros Heq W HW. split; apply Forall_forall; intros e He.
  - pose proof (raw_length_le _ _ He). lia.
  - pose proof (raw_length_le _ _ He).
    rewrite Forall_forall in Heq. specialize (Heq e He). lia.
Qed.

(** C1, as stated, fails: a batch with [M = 3], collated with target length
    [T = 2] under [model_max_length = 10], comes out with rows of length 2,
    not [min(max(3, 2), 10) = 3]. *)
Lemma collate_fn_length_counterexample :
  max_raw_length batch_demo = 3%nat /\
  model_max_length tok_demo = 10 /\
  collate_fn batch_demo tok_demo 2
    = inr (Batch [[5; 6]; [8; 2]] [[5; 6]; [8; 2]]
                 [[true; true]; [true; true]] None) /\
  ~ (forall b, collate_fn batch_demo tok_demo 2 = inr b ->
       Forall (fun r => Z.of_nat (length r)
                        = Z.min (Z.max (Z.of_nat (max_raw_length batch_demo)) 2)
                                (model_max_length tok_demo))
              (b_input_ids b)).
Proof.
  repeat split; try reflexivity.
  intros H. specialize (H _ eq_refl). simpl in H.
  apply Forall_inv in H. vm_compute in H. discriminate.
Qed.

Lemma image_entries_key_error (instances : list example) :
  ~ Forall (fun e => ex_image e <> None) instances ->
  image_entries instances = inl KeyError.
Proof.
  induction instances as [|e rest IH]; intros Hn.
  - destruct Hn. constructor.
  - cbn [image_entries]. destruct (ex_image e) as [x|] eqn:He; [|done].
    rewrite IH; [done|]. intros Hrest. apply Hn.
    constructor; [by rewrite He|done].
Qed.

Lemma collate_images_key_error (instances : list example) :
  instances <> [] -> ~ image_keys_consistent instances ->
  collate_images instances = inl KeyError.
Proof.
  destruct instances as [|first rest]; [done|]. intros _ Hn.
  unfold image_keys_consistent in Hn.
  unfold collate_images. rewrite py_index_0. cbn [ebind].
  destruct (ex_image first) as [x|] eqn:Hfirst.
  - rewrite image_entries_key_error; [done|]. intros Hall. apply Hn. by right.
  - destruct Hn. by left.
Qed.

(** C1 (amended). For a non-empty batch of tokenized examples (as many
    labels as ids in each) whose largest raw length is [M], a target length
    [T >= 0] and [model_max_length >= 0]: in every batch that [collate_fn]
    returns, the rows of [input_ids] and of [labels] have length
    [min(max(M, T), min(T, model_max_length))], that is
    [min(T, model_max_length)]: the cut is at [min(T, model_max_length)],
    also when [M] exceeds [T]. [collate_fn] returns a batch when the first
    example has no [image] key or every example has one, and raises
    [KeyError] otherwise. *)
Theorem collate_fn_final_length (instances : list example) (tok : tokenizer)
    (max_length : Z) :
  instances <> [] ->
  Forall (fun e => length (ex_input_ids e) = length (ex_labels e)) instances ->
  0 <= max_length -> 0 <= model_max_length tok ->
  let M := Z.of_nat (max_raw_length instances) in
  let final := Z.min (Z.max M max_length)
                     (Z.min max_length (model_max_length tok)) in
  final = Z.min max_length (model_max_length tok) /\
  (forall b, collate_fn instances tok max_length = inr b ->
     Forall (fun r => Z.of_nat (length r) = final) (b_input_ids b) /\
     Forall (fun r => Z.of_nat (length r) = final) (b_labels b)) /\
  (image_keys_consistent instances ->
     exists b, collate_fn instances tok max_length = inr b) /\
  (~ image_keys_consistent instances ->
     collate_fn instances tok max_length = inl KeyError).
Proof.
  intros Hne Heq HT Hmml M final. split; [unfold final; lia|].
  rewrite collate_fn_rows by done. split; [|split].
  - intros b Hb.
    destruct (collate_images instances) as [e|images]; [done|].
    cbn [ebind] in Hb. injection Hb as <-. cbn [b_input_ids b_labels].
    set (W := Nat.max (max_raw_length instances) (Z.to_nat max_length)).
    destruct (labels_length_le _ Heq W) as [Hi Hl]; [lia|].
    assert (HL : Z.of_nat (Nat.min (slice_stop W (Z.min max_length
                                                        (model_max_length tok))) W)
                 = final).
    { rewrite slice_stop_nonneg by lia. unfold final, M. lia. }
    split.
    + eapply Forall_impl; [apply padded_rows_length, Hi|].
      simpl. intros r ->. exact HL.
    + eapply Forall_impl; [apply padded_rows_length, Hl|].
      simpl. intros r ->. exact HL.
  - intros Hk. destruct (collate_images_ok _ Hne Hk) as [images ->].
    cbn [ebind]. eauto.
  - intros Hk. by rewrite (collate_images_key_error _ Hne Hk).
Qed.

Lemma collate_fn_final_length_witness :
  (forall b, collate_fn batch_demo tok_demo 2 = inr b ->
     Forall (fun r => Z.of_nat (length r) = 2) (b_input_ids b) /\
     Forall (fun r => Z.of_nat (length r) = 2) (b_labels b)) /\
  (image_keys_consistent batch_demo ->
     exists b, collate_fn batch_demo tok_demo 2 = inr b) /\
  (~ image_keys_consistent batch_demo ->
     collate_fn batch_demo tok_demo 2 = inl KeyError).
Proof.
  apply (collate_fn_final_length batch_demo tok_demo 2).
  - discriminate.
  - repeat constructor.
  - lia.
  - simpl. lia.
Defined.

(** C10. For a non-empty list of instances, each with as many labels as
    ids, [collate_fn] returns [input_ids] and [labels] of one shape: one row
    per instance, all rows of one length. Row [i] of [input_ids] is the ids
    of instance [i] padded on the right with [pad_token_id], row [i] of
    [labels] its labels padded on the right with [IGNORE_INDEX], both to the
    width [W = max(M, max_length)] and cut by the slice
    [[:min(max_length, model_max_length)]]. *)
Theorem collate_fn_same_shape (instances : list example) (tok : tokenizer)
    (max_length : Z) :
  instances <> [] ->
  Forall (fun e => length (ex_input_ids e) = length (ex_labels e)) instances ->
  image_keys_consistent instances ->
  let W := Nat.max (max_raw_length instances) (Z.to_nat max_length) in
  let L := slice_stop W (Z.min max_length (model_max_length tok)) in
  exists b, collate_fn instances tok max_length = inr b /\
    b_input_ids b
      = map (fun e => take L (ex_input_ids e
                              ++ replicate (W - length (ex_input_ids e))
                                           (pad_token_id tok))) instances /\
    b_labels b
      = map (fun e => take L (ex_labels e
                              ++ replicate (W - length (ex_labels e))
                                           IGNORE_INDEX)) instances /\
    length (b_input_ids b) = length instances /\
    length (b_labels b) = length instances /\
    Forall (fun r => length r = Nat.min L W) (b_input_ids b) /\
    Forall (fun r => length r = Nat.min L W) (b_labels b).
Proof.
  intros Hne Heq Hk W L.
  rewrite collate_fn_rows by done.
  destruct (collate_images_ok _ Hne Hk) as [images ->]. cbn [ebind].
  eexists. split; [reflexivity|]. cbn [b_input_ids b_labels].
  destruct (labels_length_le _ Heq W) as [Hi Hl]; [lia|].
  rewrite !length_map, !map_map.
  repeat split; try reflexivity.
  - rewrite <- map_map. apply padded_rows_length, Hi.
  - rewrite <- map_map. apply padded_rows_length, Hl.
Qed.

Lemma collate_fn_same_shape_witness :
  exists b, collate_fn batch_demo tok_demo 5 = inr b /\
    b_input_ids b = [[5; 6; 7; 0; 0]; [8; 2; 0; 0; 0]] /\
    b_labels b = [[5; 6; 7; -100; -100]; [8; 2; -100; -100; -100]] /\
    length (b_input_ids b) = 2%nat /\
    length (b_labels b) = 2%nat /\
    Forall (fun r => length r = 5%nat) (b_input_ids b) /\
    Forall (fun r => length r = 5%nat) (b_labels b).
Proof.
  apply (collate_fn_same_shape batch_demo tok_demo 5).
  - discriminate.
  - repeat constructor.
  - left. reflexivity.
Defined.

Lemma image_entries_tensors (instances : list example) (imgs : list tensor) :
  map ex_image instances = map (fun t => Some (Some t)) imgs ->
  image_entries instances = inr (map Some imgs).
Proof.
  revert imgs. induction instances as [|e l IH]; intros [|t imgs] H; try done.
  simpl in *. injection H as He Hl. rewrite He, (IH _ Hl). done.
Qed.

Lemma all_same_shape_spec (imgs : list tensor) :
  all_same_shape (map Some imgs) = true <->
  (forall t t', t ∈ imgs -> t' ∈ imgs -> shape t = shape t').
Proof.
  destruct imgs as [|t0 rest].
  { split; [|done]. intros _ t t' Ht. by apply elem_of_nil in Ht. }
  unfold all_same_shape. rewrite forallb_forall. simpl head. split.
  - intros H.
    assert (H0 : forall t, t ∈ t0 :: rest -> shape t = shape t0).
    { intros t Ht.
      assert (Hin : In (Some t) (map Some (t0 :: rest))).
      { apply list_elem_of_In. by apply list_elem_of_fmap_2. }
      specialize (H _ Hin). cbn beta iota in H.
      by apply bool_decide_eq_true_1 in H. }
    intros t t' Ht Ht'. rewrite (H0 t Ht), (H0 t' Ht'). done.
  - intros H x Hx%list_elem_of_In.
    change (x ∈ map Some (t0 :: rest)) in Hx.
    apply list_elem_of_fmap in Hx as [t [-> Ht]].
    apply bool_decide_eq_true_2, H; [done|left].
Qed.

(** C5. In a batch whose examples all carry an image tensor, [images] is
    one stacked tensor when the tensors have one shape, of shape [N]
    followed by that shape, so [(N, C, H, W)] for images of shape
    [(C, H, W)]; otherwise [images] is the list of the [N] tensors as they
    came. *)
Theorem collate_fn_images (instances : list example) (tok : tokenizer)
    (max_length : Z) (imgs : list tensor) :
  instances <> [] ->
  Forall (fun e => length (ex_input_ids e) = length (ex_labels e)) instances ->
  map ex_image instances = map (fun t => Some (Some t)) imgs ->
  exists b, collate_fn instances tok max_length = inr b /\
    ((forall t t', t ∈ imgs -> t' ∈ imgs -> shape t = shape t') ->
       exists stacked, b_images b = Some (Stacked stacked) /\
         data stacked = concat (map data imgs) /\
         (forall t, t ∈ imgs -> shape stacked = length instances :: shape t) /\
         (forall C H W, Forall (fun t => shape t = [C; H; W]) imgs ->
            shape stacked = [length instances; C; H; W])) /\
    (~ (forall t t', t ∈ imgs -> t' ∈ imgs -> shape t = shape t') ->
       b_images b = Some (Unstacked (map Some imgs)) /\
       length imgs = length instances).
Proof.
  intros Hne Heq Himgs.
  assert (Hlen : length imgs = length instances).
  { apply (f_equal length) in Himgs. by rewrite !length_map in Himgs. }
  rewrite collate_fn_rows by done.
  destruct instances as [|first rest]; [done|].
  destruct imgs as [|t0 imgs]; [done|].
  unfold collate_images. rewrite py_index_0. cbn [ebind].
  rewrite (image_entries_tensors _ _ Himgs).
  injection Himgs as Hfirst Hrest. rewrite Hfirst. cbn [ebind].
  pose proof (all_same_shape_spec (t0 :: imgs)) as Hspec.
  destruct (all_same_shape (map Some (t0 :: imgs))) eqn:Hall.
  - assert (Hsame : forall t, t ∈ t0 :: imgs -> shape t = shape t0).
    { intros t Ht. apply Hspec; [done|done|left]. }
    assert (Hstack : torch_stack (map Some (t0 :: imgs))
                     = inr (Tensor (length (first :: rest) :: shape t0)
                                   (concat (map data (t0 :: imgs))))).
    { unfold torch_stack. cbn [map].
      unfold all_same_shape in Hall. cbn [map head] in Hall.
      match goal with |- context [if ?c then _ else _] =>
        replace c with true by (symmetry; exact Hall) end.
      rewrite <- Hlen. do 2 f_equal.
      - change (Some t0 :: map Some imgs) with (map Some (t0 :: imgs)).
        by rewrite length_map.
      - change (Some t0 :: map Some imgs) with (map Some (t0 :: imgs)).
        by rewrite map_map. }
    rewrite Hstack. cbn [ebind].
    eexists. split; [reflexivity|]. cbn [b_images]. split.
    + intros _. eexists. split; [reflexivity|]. cbn [data shape].
      split; [done|]. split.
      * intros t Ht. by rewrite (Hsame t Ht).
      * intros C H W HF. apply Forall_inv in HF. by rewrite HF.
    + intros Hn. exfalso. apply Hn, Hspec. done.
  - eexists. split; [reflexivity|]. cbn [b_images]. split.
    + intros Hs. apply Hspec in Hs. congruence.
    + intros _. done.
Qed.

Lemma collate_fn_images_witness :
  exists b,
    collate_fn [Example_ [5] [5] (Some (Some img_a));
                Example_ [6] [6] (Some (Some img_c))]
               tok_demo 2 = inr b /\
    exists stacked, b_images b = Some (Stacked stacked) /\
      data stacked = [1 # 2; 1 # 4; 3 # 4; 1 # 1]%Q /\
      shape stacked = [2; 1; 1; 2]%nat.
Proof.
  destruct (collate_fn_images
              [Example_ [5] [5] (Some (Some img_a));
               Example_ [6] [6] (Some (Some img_c))]
              tok_demo 2 [img_a; img_c])
    as [b [Hb [Hst _]]].
  - discriminate.
  - repeat constructor.
  - reflexivity.
  - exists b. split; [exact Hb|].
    destruct Hst as [stacked [Hs [Hd [_ Hshape]]]].
    + intros t t' Ht Ht'.
      apply list_elem_of_In in Ht, Ht'. simpl in Ht, Ht'.
      destruct Ht as [<-|[<-|[]]], Ht' as [<-|[<-|[]]]; reflexivity.
    + exists stacked. split; [exact Hs|]. split; [exact Hd|].
      apply (Hshape 1%nat 1%nat 2%nat). repeat constructor.
Defined.

Example collate_fn_images_unstacked :
  (let? b := collate_fn [Example_ [5] [5] (Some (Some img_a));
                         Example_ [6] [6] (Some (Some img_b))] tok_demo 2 in
   inr (b_images b))
  = inr (Some (Unstacked [Some img_a; Some img_b])).
Proof. reflexivity. Qed.

(** ** The dataset *)

Lemma init_loop (data acc : list item) :
  fold_left (fun acc it => if has_image it then acc ++ [it] else acc) data acc
  = acc ++ List.filter has_image data.
Proof.
  revert acc. induction data as [|it data IH]; intros acc; simpl.
  - by rewrite app_nil_r.
  - rewrite IH. destruct (has_image it); [|done].
    by rewrite <- app_assoc.
Qed.

(** C4. The dataset built by [__init__] holds the records of the input that
    have an [image] key, in their order, and no other: its length is the
    number of such records and every record it holds has the key. *)
Theorem init_keeps_image_records (tok : tokenizer) (p2s : bool)
    (data : list item) (proc : image_processor) :
  crop_size_height proc = crop_size_width proc ->
  exists ds, init tok p2s data proc = inr ds /\
    list_data_dict ds = List.filter has_image data /\
    len ds = length (List.filter has_image data) /\
    Forall (fun it => image it <> None) (list_data_dict ds) /\
    (forall it, it ∈ data -> image it = None -> it ∉ list_data_dict ds) /\
    (forall it, it ∈ data -> image it <> None -> it ∈ list_data_dict ds).
Proof.
  intros Hcrop. unfold init. rewrite init_loop. cbn [app].
  rewrite Hcrop, Z.eqb_refl. eexists. split; [reflexivity|].
  unfold len. cbn [list_data_dict].
  repeat split.
  - apply Forall_forall. intros it Hit%list_elem_of_In%filter_In.
    destruct Hit as [_ Hit]. unfold has_image in Hit.
    by destruct (image it).
  - intros it _ Hnone Hit%list_elem_of_In%filter_In.
    destruct Hit as [_ Hit]. unfold has_image in Hit.
    by rewrite Hnone in Hit.
  - intros it Hit Hsome. apply list_elem_of_In, filter_In.
    split; [by apply list_elem_of_In|].
    unfold has_image. by destruct (image it).
Qed.

Lemma init_keeps_image_records_witness :
  exists ds, init tok_demo false data_demo proc_demo = inr ds /\
    list_data_dict ds
      = [Item (Some (py "a.jpg")) [1%positive; 2%positive];
         Item (Some (py "b.jpg")) [5%positive; 6%positive]] /\
    len ds = 2%nat.
Proof.
  destruct (init_keeps_image_records tok_demo false data_demo proc_demo eq_refl)
    as [ds [Hds [Hl [Hn _]]]].
  exists ds. split; [exact Hds|]. split; [exact Hl|exact Hn].
Defined.

(** The padding colour of the dataset, [int(x * 255)] of the channel means. *)
Lemma init_background_color (tok : tokenizer) (p2s : bool) (data : list item)
    (proc : image_processor) (ds : dataset) :
  init tok p2s data proc = inr ds -> background_color ds = (123, 116, 103).
Proof.
  unfold init. destruct (crop_size_height proc =? crop_size_width proc); [|done].
  by intros [= <-].
Qed.

(** ** expand2square *)

(** C8, as stated, fails: an image of width 4 and height 1 comes out as a
    square of side 4 with its row at height 1, one row of background above
    it and two below; the shorter dimension is not padded symmetrically. *)
Lemma expand2square_symmetry_counterexample :
  let bg := (123, 116, 103) in
  let result := expand2square img_flat bg in
  size img_flat = (4, 1) /\
  size result = (4, 4) /\
  (forall x, 0 <= x < 4 ->
     getpixel result x 0 = bg /\
     getpixel result x 1 = getpixel img_flat x 0 /\
     getpixel result x 2 = bg /\
     getpixel result x 3 = bg) /\
  (4 - 1) / 2 <> 4 - 1 - (4 - 1) / 2.
Proof.
  cbv zeta. split; [reflexivity|]. split; [reflexivity|]. split; [|discriminate].
  intros x Hx. unfold expand2square, paste, Image_new. cbn.
  change ((4 - 1) / 2) with 1. change (0 + 4) with 4.
  rewrite (proj2 (Z.ltb_lt x 4)) by lia.
  destruct (Z.leb_spec 0 x); [|lia]. cbn.
  repeat split. change (1 <? 1 + 1) with true. cbv iota.
  by replace (x - 0) with x by lia.
Qed.

(** C8 (amended). A square image is returned as it is. Otherwise the result
    is square of side [max(width, height)]; the input sits in it at the
    offset [((side - width) // 2, (side - height) // 2)], whole, and every
    other pixel has the background colour. The padding before and after the
    shorter dimension are equal when the difference of the sides is even,
    and the one after is one pixel more than the one before when it is odd
    (the rounding of [// 2]); the longer dimension is not padded. *)
Theorem expand2square_spec (pil_img : pil_image) (bg : color) :
  let w := fst (size pil_img) in
  let h := snd (size pil_img) in
  let side := Z.max w h in
  let ox := (side - w) / 2 in
  let oy := (side - h) / 2 in
  let result := expand2square pil_img bg in
  (w = h -> result = pil_img) /\
  (w <> h ->
     size result = (side, side) /\
     mode result = mode pil_img /\
     (forall x y,
        getpixel result x y =
          if (ox <=? x) && (x <? ox + w) && (oy <=? y) && (y <? oy + h)
          then getpixel pil_img (x - ox) (y - oy) else bg) /\
     (forall x y, 0 <= x < w -> 0 <= y < h ->
        0 <= x + ox < side /\ 0 <= y + oy < side /\
        getpixel result (x + ox) (y + oy) = getpixel pil_img x y) /\
     (ox <= side - w - ox <= ox + 1) /\
     (oy <= side - h - oy <= oy + 1) /\
     ((side - w) mod 2 = 0 -> ox = side - w - ox) /\
     ((side - h) mod 2 = 0 -> oy = side - h - oy) /\
     ((side - w) mod 2 = 1 -> side - w - ox = ox + 1) /\
     ((side - h) mod 2 = 1 -> side - h - oy = oy + 1) /\
     (ox = 0 \/ oy = 0)).
Proof.
  unfold expand2square. destruct (size pil_img) as [w h] eqn:Hsize.
  cbn [fst snd]. split.
  - intros ->. by rewrite Z.eqb_refl.
  - intros Hne.
    destruct (Z.eqb_spec w h) as [?|_]; [done|].
    destruct (Z.gtb_spec w h) as [Hgt|Hle].
    + replace (Z.max w h) with w by lia.
      replace ((w - w) / 2) with 0 by (by rewrite Z.sub_diag).
      unfold paste, Image_new. rewrite Hsize. cbn [size mode getpixel].
      split; [done|]. split; [done|]. split; [done|].
      split; [|do 6 (split; [Z.div_mod_to_equations; lia|]); by left].
      intros x y Hx Hy.
      split; [lia|]. split; [Z.div_mod_to_equations; lia|].
      rewrite (proj2 (Z.leb_le 0 (x + 0))), (proj2 (Z.ltb_lt (x + 0) (0 + w))),
        (proj2 (Z.leb_le _ (y + (w - h) / 2))),
        (proj2 (Z.ltb_lt (y + (w - h) / 2) _)) by lia.
      cbn [andb]. f_equal; lia.
    + replace (Z.max w h) with h by lia.
      replace ((h - h) / 2) with 0 by (by rewrite Z.sub_diag).
      unfold paste, Image_new. rewrite Hsize. cbn [size mode getpixel].
      split; [done|]. split; [done|]. split; [done|].
      split; [|do 6 (split; [Z.div_mod_to_equations; lia|]); by right].
      intros x y Hx Hy.
      split; [Z.div_mod_to_equations; lia|]. split; [lia|].
      rewrite (proj2 (Z.leb_le _ (x + (h - w) / 2))),
        (proj2 (Z.ltb_lt (x + (h - w) / 2) _)),
        (proj2 (Z.leb_le 0 (y + 0))), (proj2 (Z.ltb_lt (y + 0) (0 + h))) by lia.
      cbn [andb]. f_equal; lia.
Qed.

Lemma expand2square_spec_witness :
  (let result := expand2square img_wide (123, 116, 103) in
   size result = (4, 4) /\
   getpixel result 3 0 = (123, 116, 103) /\
   getpixel result 3 1 = (3, 0, 0) /\
   getpixel result 3 2 = (3, 1, 0) /\
   getpixel result 3 3 = (123, 116, 103)) /\
  (let result := expand2square img_flat (123, 116, 103) in
   size result = (4, 4) /\
   getpixel result 3 0 = (123, 116, 103) /\
   getpixel result 3 1 = (3, 0, 0) /\
   getpixel result 3 2 = (123, 116, 103) /\
   getpixel result 3 3 = (123, 116, 103)).
Proof.
  split.
  - destruct (expand2square_spec img_wide (123, 116, 103)) as [_ H].
    destruct H as [Hsize [_ [Hpix _]]]; [discriminate|].
    split; [exact Hsize|].
    rewrite !Hpix. repeat split.
  - destruct (expand2square_spec img_flat (123, 116, 103)) as [_ H].
    destruct H as [Hsize [_ [Hpix _]]]; [discriminate|].
    split; [exact Hsize|].
    rewrite !Hpix. repeat split.
Defined.

(** ** What a computation leaves of a store: the rules of [keeps] *)

Section Keeps.

Variable h0 : gmap loc sentence.

Lemma keeps_ret {A} (a : A) (Q : A -> Prop) : Q a -> keeps h0 (ret a) Q.
Proof. intros HQ h r h' Hh [= <- <-]. split; [done|]. by intros ? [= <-]. Qed.

Lemma keeps_raise {A} (e : exn) (Q : A -> Prop) : keeps h0 (raise e) Q.
Proof. intros h r h' Hh [= <- <-]. split; [done|]. done. Qed.

Lemma keeps_lift {A} (r : exn + A) (Q : A -> Prop) :
  (forall a, r = inr a -> Q a) -> keeps h0 (lift r) Q.
Proof. intros HQ h r' h' Hh [= <- <-]. split; [done|]. exact HQ. Qed.

Lemma keeps_bind {A B} (m : M A) (k : A -> M B) (Q : A -> Prop) (R : B -> Prop) :
  keeps h0 m Q -> (forall a, Q a -> keeps h0 (k a) R) -> keeps h0 (bind m k) R.
Proof.
  intros Hm Hk h r h' Hh. unfold bind.
  destruct (m h) as [[e|a] h1] eqn:Hmh.
  - intros [= <- <-]. split; [|done]. by apply (Hm _ _ _ Hh Hmh).
  - destruct (Hm _ _ _ Hh Hmh) as [Hh1 HQ]. by apply Hk; [apply HQ|].
Qed.

Lemma keeps_weaken {A} (m : M A) (Q Q' : A -> Prop) :
  keeps h0 m Q -> (forall a, Q a -> Q' a) -> keeps h0 m Q'.
Proof.
  intros Hm HQ h r h' Hh Hr. destruct (Hm _ _ _ Hh Hr) as [? ?]. split; auto.
Qed.

Lemma keeps_py_assert (b : bool) : keeps h0 (py_assert b) (fun _ => b = true).
Proof.
  destruct b; [by apply keeps_ret|].
  intros h r h' Hh [= <- <-]. split; done.
Qed.

Lemma keeps_get_value (l : loc) : keeps h0 (get_value l) (fun _ => True).
Proof.
  intros h r h' Hh. unfold get_value.
  destruct (h !! l); intros [= <- <-]; split; done.
Qed.

Lemma keeps_load (l : loc) : keeps h0 (load l) (fun _ => True).
Proof.
  intros h r h' Hh. unfold load.
  destruct (h !! l); intros [= <- <-]; split; done.
Qed.

(** A write to a dict that is not one of [h0]. *)
Lemma keeps_set_value (l : loc) (v : pystr) :
  l ∉ dom h0 -> keeps h0 (set_value l v) (fun _ => True).
Proof.
  intros Hl h r h' Hh. unfold set_value.
  destruct (h !! l); intros [= <- <-]; (split; [|done]); [|done].
  apply insert_subseteq_r; [|done]. by apply not_elem_of_dom.
Qed.

(** A new dict is none of [h0]. *)
Lemma keeps_alloc (s : sentence) : keeps h0 (alloc s) (fun l => l ∉ dom h0).
Proof.
  intros h r h' Hh [= <- <-].
  assert (Hfresh : fresh (dom h) ∉ dom h0).
  { intros Hin. apply (is_fresh (dom h)).
    by apply (subseteq_dom _ _ Hh). }
  split.
  - apply insert_subseteq_r; [|done]. by apply not_elem_of_dom.
  - by intros a [= <-].
Qed.

Lemma keeps_for_each {A} (body : A -> M unit) (l : list A) :
  (forall x, x ∈ l -> keeps h0 (body x) (fun _ => True)) ->
  keeps h0 (for_each body l) (fun _ => True).
Proof.
  induction l as [|x l IH]; intros Hb; simpl.
  - by apply keeps_ret.
  - eapply keeps_bind; [apply Hb; left|]. intros _ _.
    apply IH. intros y Hy. apply Hb. by right.
Qed.

Lemma py_index_elem_of {A} (l : list A) (i : Z) (x : A) :
  py_index l i = inr x -> x ∈ l.
Proof.
  unfold py_index. destruct (_ && _); [|done].
  destruct (l !! _) eqn:E; [|done]. intros [= <-].
  by eapply list_elem_of_lookup_2.
Qed.

Lemma keeps_strip_image_placeholder (l : loc) :
  l ∉ dom h0 -> keeps h0 (strip_image_placeholder l) (fun _ => True).
Proof.
  intros Hl. unfold strip_image_placeholder.
  eapply keeps_bind; [apply keeps_get_value|]. intros v _.
  destruct (contains DEFAULT_IMAGE_TOKEN v); [|by apply keeps_ret].
  repeat (eapply keeps_bind; [apply keeps_get_value|]; intros ? _;
          eapply keeps_bind; [by apply keeps_set_value|]; intros ? _).
  eapply keeps_bind; [apply keeps_get_value|]. intros ? _.
  by apply keeps_set_value.
Qed.

Lemma keeps_preprocess_multimodal (sources : list (list loc)) :
  Forall (outside h0) sources ->
  keeps h0 (preprocess_multimodal sources) (fun r => r = sources).
Proof.
  intros Hout. unfold preprocess_multimodal.
  eapply keeps_bind; [|intros _ _; by apply keeps_ret].
  apply keeps_for_each. intros source Hsource.
  apply keeps_for_each. intros l Hl.
  apply keeps_strip_image_placeholder.
  rewrite Forall_forall in Hout. specialize (Hout _ Hsource).
  unfold outside in Hout. rewrite Forall_forall in Hout. by apply Hout.
Qed.

Lemma keeps_plain_conversations (sep : pystr) (sources : list (list loc)) :
  Forall (outside h0) sources ->
  keeps h0 (plain_conversations sep sources) (fun _ => True).
Proof.
  induction 1 as [|source rest Hsource _ IH]; simpl.
  - by apply keeps_ret.
  - eapply keeps_bind; [apply keeps_py_assert|]. intros _ _.
    eapply keeps_bind; [apply keeps_lift; intros ? Ha; exact Ha|].
    intros s0 Hs0%py_index_elem_of.
    eapply keeps_bind.
    { apply keeps_set_value. unfold outside in Hsource.
      rewrite Forall_forall in Hsource. by apply Hsource. }
    intros _ _.
    eapply keeps_bind; [apply keeps_lift; intros ? ?; exact I|]. intros ? _.
    eapply keeps_bind; [apply keeps_get_value|]. intros ? _.
    eapply keeps_bind; [apply keeps_lift; intros ? ?; exact I|]. intros ? _.
    eapply keeps_bind; [apply keeps_get_value|]. intros ? _.
    eapply keeps_bind; [apply IH|]. intros ? _.
    by apply keeps_ret.
Qed.

Lemma keeps_mask_targets (tok : tokenizer) (targets : list (list Z))
    (sources : list (list loc)) :
  keeps h0 (mask_targets tok targets sources) (fun _ => True).
Proof.
  revert sources. induction targets as [|target targets IH];
    intros [|source sources]; simpl; try by apply keeps_ret.
  eapply keeps_bind.
  { instantiate (1 := fun _ => True). unfold tokenized_len.
    eapply keeps_bind; [apply keeps_lift; intros ? ?; exact I|]. intros ? _.
    eapply keeps_bind; [apply keeps_get_value|]. intros ? _.
    by apply keeps_ret. }
  intros ? _.
  eapply keeps_bind.
  { instantiate (1 := fun _ => True).
    destruct (_ <? _)%nat; [by apply keeps_lift|by apply keeps_ret]. }
  intros ? _.
  eapply keeps_bind; [apply IH|]. intros ? _.
  by apply keeps_ret.
Qed.

Lemma keeps_preprocess_plain (sep : pystr) (sources : list (list loc))
    (tok : tokenizer) :
  Forall (outside h0) sources ->
  keeps h0 (preprocess_plain sep sources tok) (fun _ => True).
Proof.
  intros Hout. unfold preprocess_plain.
  eapply keeps_bind; [by apply keeps_plain_conversations|]. intros ? _.
  eapply keeps_bind; [apply keeps_mask_targets|]. intros ? _.
  eapply keeps_bind; [apply keeps_lift; intros ? ?; exact I|]. intros ? _.
  eapply keeps_bind; [apply keeps_lift; intros ? ?; exact I|]. intros ? _.
  by apply keeps_ret.
Qed.

End Keeps.

(** ** copy.deepcopy and __getitem__ *)

Lemma keeps_deepcopy_dict h0 (memo : gmap loc loc) (l : loc) :
  memo_outside h0 memo ->
  keeps h0 (deepcopy_dict memo l)
        (fun r => (fst r ∉ dom h0) /\ memo_outside h0 (snd r)).
Proof.
  intros Hmemo. unfold deepcopy_dict.
  destruct (memo !! l) as [l'|] eqn:Hl.
  - apply keeps_ret. split; [by eapply Hmemo|done].
  - eapply keeps_bind; [apply keeps_load|]. intros s _.
    eapply keeps_bind; [apply keeps_alloc|]. intros l' Hl'.
    apply keeps_ret. split; [done|]. cbn [snd].
    intros k k'. rewrite lookup_insert. case_decide.
    + by intros [= <-].
    + apply Hmemo.
Qed.

Lemma keeps_deepcopy_list h0 (ls : list loc) :
  forall memo, memo_outside h0 memo ->
  keeps h0 (deepcopy_list memo ls)
        (fun r => outside h0 (fst r) /\ memo_outside h0 (snd r)).
Proof.
  induction ls as [|l ls IH]; intros memo Hmemo; simpl.
  - apply keeps_ret. split; [constructor|done].
  - eapply keeps_bind; [by apply keeps_deepcopy_dict|].
    intros [l' memo1] [Hl' Hmemo1].
    eapply keeps_bind; [by apply IH|].
    intros [ls' memo2] [Hls' Hmemo2].
    apply keeps_ret. split; [by constructor|done].
Qed.

Lemma keeps_deepcopy_lists h0 (lss : list (list loc)) :
  forall memo, memo_outside h0 memo ->
  keeps h0 (deepcopy_lists memo lss)
        (fun r => Forall (outside h0) (fst r) /\ memo_outside h0 (snd r)).
Proof.
  induction lss as [|ls lss IH]; intros memo Hmemo; simpl.
  - apply keeps_ret. split; [constructor|done].
  - eapply keeps_bind; [by apply keeps_deepcopy_list|].
    intros [ls' memo1] [Hls' Hmemo1].
    eapply keeps_bind; [by apply IH|].
    intros [lss' memo2] [Hlss' Hmemo2].
    apply keeps_ret. split; [by constructor|done].
Qed.

Lemma keeps_deepcopy h0 (lss : list (list loc)) :
  keeps h0 (deepcopy lss) (Forall (outside h0)).
Proof.
  unfold deepcopy.
  eapply keeps_bind; [apply keeps_deepcopy_lists|].
  - intros k k'. by rewrite lookup_empty.
  - intros [lss' memo] [Hlss' _]. by apply keeps_ret.
Qed.

Section GetItemKeeps.

Variable sep : pystr.
Variable Image_open_rgb : pystr -> exn + pil_image.
Variable Image_resize_bicubic : pil_image -> Z * Z -> exn + pil_image.

Lemma keeps_getitem h0 (self : dataset) (i : Z) :
  keeps h0 (getitem sep Image_open_rgb Image_resize_bicubic self i)
        (fun _ => True).
Proof.
  unfold getitem.
  do 2 (eapply keeps_bind; [apply keeps_lift; intros ? ?; exact I|]; intros ? _;
        eapply keeps_bind; [apply keeps_py_assert|]; intros _ _).
  do 5 (eapply keeps_bind; [apply keeps_lift; intros ? ?; exact I|]; intros ? _).
  eapply keeps_bind; [apply keeps_deepcopy|]. intros copied Hcopied.
  eapply keeps_bind; [by apply keeps_preprocess_multimodal|]. intros ? ->.
  eapply keeps_bind; [by apply keeps_preprocess_plain|]. intros ? _.
  do 3 (eapply keeps_bind; [apply keeps_lift; intros ? ?; exact I|]; intros ? _).
  eapply keeps_bind; [|intros ? _; by apply keeps_ret].
  instantiate (1 := fun _ => True).
  destruct (has_image _); [by apply keeps_ret|by apply keeps_lift].
Qed.

(** C9. A fetch changes no dict of the store it starts from, whether it
    returns or raises: the writes of [preprocess_multimodal] and
    [preprocess_plain] go to the dicts that [copy.deepcopy] made. So after
    any sequence of fetches every sentence that [list_data_dict] refers to
    has the text it had before. *)
Theorem getitem_keeps_store (self : dataset) (idx : list Z)
    (h : gmap loc sentence) (l : loc) (s : sentence) :
  h !! l = Some s ->
  (forall i, snd (getitem sep Image_open_rgb Image_resize_bicubic self i h) !! l
             = Some s) /\
  store_after sep Image_open_rgb Image_resize_bicubic self idx h !! l = Some s.
Proof.
  intros Hl.
  assert (Hone : forall i h1, h ⊆ h1 ->
            h ⊆ snd (getitem sep Image_open_rgb Image_resize_bicubic self i h1)).
  { intros i h1 Hh1.
    destruct (getitem sep Image_open_rgb Image_resize_bicubic self i h1)
      as [r h'] eqn:E.
    by apply (keeps_getitem h self i h1 r h' Hh1 E). }
  split.
  - intros i. eapply lookup_weaken; [exact Hl|]. by apply Hone.
  - eapply lookup_weaken; [exact Hl|].
    assert (Hall : forall h1, h ⊆ h1 -> h ⊆ store_after sep Image_open_rgb Image_resize_bicubic self idx h1).
    { induction idx as [|i idx IH]; intros h1 Hh1; simpl; [done|].
      by apply IH, Hone. }
    by apply Hall.
Qed.

End GetItemKeeps.

(** ** preprocess_plain *)

Lemma blank_le_refl h : blank_le h h.
Proof. intros l s Hl. eauto. Qed.

Lemma blank_le_trans h1 h2 h3 : blank_le h1 h2 -> blank_le h2 h3 -> blank_le h1 h3.
Proof.
  intros H12 H23 l s Hl.
  destruct (H12 _ _ Hl) as [s2 [Hl2 Hv2]].
  destruct (H23 _ _ Hl2) as [s3 [Hl3 Hv3]]. eauto.
Qed.

Lemma blank_le_set h l s : h !! l = Some s -> blank_le h (<[l := Sentence (sfrom s) []]> h).
Proof.
  intros Hl k sk Hk. destruct (decide (l = k)) as [<-|Hne].
  - rewrite lookup_insert_eq. eauto.
  - rewrite lookup_insert_ne by done. eauto.
Qed.

Lemma allocated_blank_le h h' sources :
  blank_le h h' -> allocated h sources -> allocated h' sources.
Proof.
  intros Hle Ha. eapply Forall_impl; [exact Ha|]. intros source Hs. simpl in *.
  eapply Forall_impl; [exact Hs|]. intros l [s Hl]. simpl in *.
  destruct (Hle _ _ Hl) as [s' [Hl' _]]. eauto.
Qed.

Lemma first_blank_le h h' source :
  blank_le h h' -> first_blank h source -> first_blank h' source.
Proof.
  intros Hle (s0 & s & Hi & Hl & Hv).
  destruct (Hle _ _ Hl) as [s' [Hl' Hv']]. exists s0, s'. auto.
Qed.

Tactic Notation "step_with" tactic3(t) := erewrite bind_inr; [|t].

(** One round of the first loop, on a two-turn conversation. *)
Lemma plain_conversations_cons sep s0 s1 rest h a b :
  h !! s0 = Some a -> h !! s1 = Some b ->
  let h1 := <[s0 := Sentence (sfrom a) []]> h in
  exists v1, get_value s1 h1 = (inr v1, h1) /\
    plain_conversations sep ([s0; s1] :: rest) h =
      bind (plain_conversations sep rest)
           (fun conversations => ret (([] ++ v1 ++ sep) :: conversations)) h1.
Proof.
  intros Ha Hb h1.
  assert (Hb1 : exists b1, h1 !! s1 = Some b1).
  { unfold h1. destruct (decide (s0 = s1)) as [<-|Hne].
    - rewrite lookup_insert_eq. eauto.
    - rewrite lookup_insert_ne by done. eauto. }
  destruct Hb1 as [b1 Hb1]. exists (value b1).
  split; [by apply get_value_ok|].
  cbn [plain_conversations].
  step_with reflexivity. step_with reflexivity.
  step_with (by apply set_value_ok). step_with reflexivity.
  fold h1.
  step_with (apply get_value_ok; apply lookup_insert_eq).
  step_with reflexivity.
  step_with (by apply get_value_ok).
  reflexivity.
Qed.

Lemma plain_conversations_ok sep sources :
  forall h, Forall (fun source => length source = 2%nat) sources ->
  allocated h sources ->
  exists conversations h',
    plain_conversations sep sources h = (inr conversations, h') /\
    length conversations = length sources /\
    Forall (first_blank h') sources /\
    blank_le h h'.
Proof.
  induction sources as [|source rest IH]; intros h Htwo Halloc.
  - exists [], h. repeat split; [constructor|apply blank_le_refl].
  - apply Forall_cons in Htwo as [Hlen Htwo].
    apply Forall_cons in Halloc as [Hsource Halloc].
    destruct source as [|s0 [|s1 [|? ?]]]; try discriminate.
    apply Forall_cons in Hsource as [[a Ha] Hsource].
    apply Forall_cons in Hsource as [[b Hb] _].
    destruct (plain_conversations_cons sep s0 s1 rest h a b Ha Hb)
      as [v1 [_ ->]].
    pose proof (blank_le_set _ _ _ Ha) as Hle1.
    destruct (IH _ Htwo (allocated_blank_le _ _ _ Hle1 Halloc))
      as (convs & h' & Hrun & Hlenc & Hblank & Hle).
    erewrite bind_inr; [|exact Hrun].
    eexists _, h'. split; [reflexivity|].
    split; [simpl; by rewrite Hlenc|]. split.
    + constructor; [|done].
      eapply first_blank_le; [exact Hle|].
      exists s0, (Sentence (sfrom a) []).
      split; [reflexivity|]. split; [apply lookup_insert_eq|done].
    + eapply blank_le_trans; [exact Hle1|exact Hle].
Qed.

Lemma plain_conversations_assert sep sources :
  forall h, allocated h sources ->
  Exists (fun source => length source <> 2%nat) sources ->
  exists h', plain_conversations sep sources h = (inl AssertionError, h').
Proof.
  induction sources as [|source rest IH]; intros h Halloc Hex.
  - by apply Exists_nil in Hex.
  - apply Forall_cons in Halloc as [Hsource Halloc].
    destruct (decide (length source = 2%nat)) as [Hlen|Hlen].
    + apply Exists_cons in Hex as [?|Hex]; [done|].
      destruct source as [|s0 [|s1 [|? ?]]]; try discriminate.
      apply Forall_cons in Hsource as [[a Ha] Hsource].
      apply Forall_cons in Hsource as [[b Hb] _].
      destruct (plain_conversations_cons sep s0 s1 rest h a b Ha Hb)
        as [v1 [_ ->]].
      pose proof (blank_le_set _ _ _ Ha) as Hle1.
      destruct (IH _ (allocated_blank_le _ _ _ Hle1 Halloc) Hex) as [h' Hrun].
      erewrite bind_inl; [|exact Hrun]. eauto.
    + exists h. cbn [plain_conversations].
      erewrite bind_inl; [reflexivity|].
      unfold py_assert. by rewrite (proj2 (Nat.eqb_neq _ _) Hlen).
Qed.

Lemma bind_inv_inr {A B} (m : M A) (k : A -> M B) h (b : B) h' :
  bind m k h = (inr b, h') ->
  exists a h1, m h = (inr a, h1) /\ k a h1 = (inr b, h').
Proof.
  unfold bind. destruct (m h) as [[e|a] h1]; [done|]. eauto.
Qed.

Ltac inv_bind H :=
  let a := fresh "a" in
  let h := fresh "h" in
  let E := fresh "E" in
  apply bind_inv_inr in H as (a & h & E & H).

Lemma plain_conversations_length sep sources :
  forall h conversations h',
    plain_conversations sep sources h = (inr conversations, h') ->
    length conversations = length sources.
Proof.
  induction sources as [|source rest IH]; intros h convs h' H.
  - by injection H as <- _.
  - cbn [plain_conversations] in H.
    do 8 inv_bind H. injection H as <- _.
    simpl. f_equal. eapply IH. eassumption.
Qed.

Lemma mask_targets_inr tok targets :
  forall sources h targets' h',
    mask_targets tok targets sources h = (inr targets', h') ->
    targets' = take (length sources) targets.
Proof.
  induction targets as [|target targets IH];
    intros [|source sources] h targets' h' H; simpl in H;
    try (by injection H as <- _).
  do 3 inv_bind H. injection H as <- _.
  simpl. f_equal.
  - destruct (_ <? _)%nat; [discriminate|]. by injection E0 as <- _.
  - eapply IH. eassumption.
Qed.

Lemma torch_tensor_inr rows t : torch_tensor rows = inr t -> t = rows.
Proof.
  destruct rows as [|r rest]; simpl; [by intros [= <-]|].
  destruct (forallb _ _); [by intros [= <-]|done].
Qed.

Lemma lift_eq {A} (r x : exn + A) h : r = x -> lift r h = (x, h).
Proof. by intros ->. Qed.

Lemma lift_inr {A} (r : exn + A) h a h' : lift r h = (inr a, h') -> r = inr a.
Proof. by intros [= -> _]. Qed.

(** What [preprocess_plain] returns, when it returns: the token ids of each
    conversation text followed by the end-of-sequence id, and labels that
    are these very rows. *)
Lemma preprocess_plain_inr sep sources tok h out h' :
  preprocess_plain sep sources tok h = (inr out, h') ->
  exists conversations,
    length conversations = length sources /\
    input_ids out
      = map (fun prompt => encode tok prompt ++ [eos_token_id tok]) conversations /\
    labels out = input_ids out.
Proof.
  intros H. unfold preprocess_plain in H.
  inv_bind H. rename a into convs.
  pose proof (plain_conversations_length _ _ _ _ _ E) as Hlen.
  inv_bind H. apply mask_targets_inr in E0.
  inv_bind H. apply lift_inr, torch_tensor_inr in E1.
  inv_bind H. apply lift_inr, torch_tensor_inr in E2.
  injection H as <- _. exists convs. cbn [input_ids labels].
  split; [done|]. split; [done|].
  subst. rewrite take_ge; [done|]. rewrite length_map. lia.
Qed.

(** Labels that [preprocess_plain] returns are token ids: with a tokenizer
    whose ids are indices into its vocabulary, none is [IGNORE_INDEX]. *)
Lemma preprocess_plain_labels_valid sep sources tok h out h' :
  valid_ids tok ->
  preprocess_plain sep sources tok h = (inr out, h') ->
  Forall (Forall (fun x => x <> IGNORE_INDEX)) (labels out).
Proof.
  intros [Heos Hids] H.
  destruct (preprocess_plain_inr _ _ _ _ _ _ H) as (convs & _ & Hrows & ->).
  rewrite Hrows. apply Forall_forall. intros row Hrow%list_elem_of_fmap.
  destruct Hrow as [prompt [-> _]]. apply Forall_app. split.
  - apply Forall_forall. intros x Hx%Hids. unfold IGNORE_INDEX. lia.
  - constructor; [|constructor]. unfold IGNORE_INDEX. lia.
Qed.


Lemma bind_inv_inl {A B} (m : M A) (k : A -> M B) h (e : exn) h' :
  bind m k h = (inl e, h') ->
  m h = (inl e, h') \/ exists a h1, m h = (inr a, h1) /\ k a h1 = (inl e, h').
Proof.
  unfold bind. destruct (m h) as [[e1|a] h1]; [intros [= <- <-]; by left|].
  right. eauto.
Qed.

Lemma tokenized_len_blank tok h source :
  first_blank h source ->
  tokenized_len tok source h = (inr (length (encode tok [])), h).
Proof.
  intros (s0 & s & Hi & Hl & Hv). unfold tokenized_len.
  step_with (apply lift_eq, Hi).
  step_with (by apply get_value_ok). by rewrite Hv.
Qed.

Lemma mask_targets_blank tok targets :
  forall sources h, Forall (first_blank h) sources -> encode tok [] = [] ->
  mask_targets tok targets sources h = (inr (take (length sources) targets), h).
Proof.
  induction targets as [|target targets IH];
    intros [|source sources] h Hblank Hempty; try done.
  apply Forall_cons in Hblank as [Hsource Hblank]. cbn [mask_targets].
  step_with (by apply tokenized_len_blank).
  rewrite Hempty. cbn [length Nat.ltb Nat.leb].
  step_with reflexivity. step_with (by apply IH). done.
Qed.

Lemma mask_targets_inl tok targets :
  forall sources h e h', Forall (first_blank h) sources ->
  mask_targets tok targets sources h = (inl e, h') -> e = TypeError.
Proof.
  induction targets as [|target targets IH];
    intros [|source sources] h e h' Hblank H; try done.
  apply Forall_cons in Hblank as [Hsource Hblank]. cbn [mask_targets] in H.
  erewrite bind_inr in H; [|by apply tokenized_len_blank].
  destruct (0 <? length (encode tok []))%nat.
  - by injection H as <- _.
  - erewrite bind_inr in H; [|reflexivity].
    apply bind_inv_inl in H as [H|(a & h1 & _ & H)]; [|done].
    by eapply IH.
Qed.

Lemma torch_tensor_inl rows e : torch_tensor rows = inl e -> e = ValueError.
Proof.
  destruct rows as [|r rest]; simpl; [done|].
  destruct (forallb _ _); [done|by intros [= <-]].
Qed.

(** C7. On conversations that are in the store, [preprocess_plain] raises
    [AssertionError] as soon as one of them has not exactly two turns, and
    does not raise it when each has exactly two. *)
Theorem preprocess_plain_assertion sep (sources : list (list loc))
    (tok : tokenizer) (h : gmap loc sentence) :
  allocated h sources ->
  ((exists source, source ∈ sources /\ length source <> 2%nat) ->
     fst (preprocess_plain sep sources tok h) = inl AssertionError) /\
  ((forall source, source ∈ sources -> length source = 2%nat) ->
     fst (preprocess_plain sep sources tok h) <> inl AssertionError).
Proof.
  intros Halloc. split.
  - intros Hex. apply Exists_exists in Hex.
    destruct (plain_conversations_assert sep _ _ Halloc Hex) as [h' Hrun].
    unfold preprocess_plain. by erewrite bind_inl.
  - intros Htwo. apply Forall_forall in Htwo.
    destruct (plain_conversations_ok sep _ _ Htwo Halloc)
      as (convs & h1 & Hrun & _ & Hblank & _).
    unfold preprocess_plain. step_with (exact Hrun).
    set (ids := map _ convs).
    destruct (mask_targets tok ids sources h1) as [[e|targets] h2] eqn:Hmask.
    + pose proof (mask_targets_inl _ _ _ _ _ _ Hblank Hmask) as ->.
      by erewrite bind_inl; [|exact Hmask].
    + step_with (exact Hmask).
      destruct (torch_tensor ids) as [e|t1] eqn:Ht1.
      { pose proof (torch_tensor_inl _ _ Ht1) as ->.
        erewrite bind_inl; [|reflexivity]. done. }
      step_with reflexivity.
      destruct (torch_tensor targets) as [e|t2] eqn:Ht2.
      { pose proof (torch_tensor_inl _ _ Ht2) as ->.
        erewrite bind_inl; [|reflexivity]. done. }
      step_with reflexivity. done.
Qed.

(** [preprocess_plain] on one conversation of two distinct dicts, with a
    tokenizer that encodes the empty string as the empty sequence: the first
    turn is blanked, and ids and labels are the ids of the text of the
    second turn followed by the separator, then the end-of-sequence id. *)
Lemma preprocess_plain_two_turn sep (s0 s1 : loc) (tok : tokenizer)
    (h : gmap loc sentence) (a b : sentence) :
  h !! s0 = Some a -> h !! s1 = Some b -> s0 <> s1 ->
  encode tok [] = [] ->
  let ids := encode tok (value b ++ sep) ++ [eos_token_id tok] in
  preprocess_plain sep [[s0; s1]] tok h
  = (inr (DataDict [ids] [ids]), <[s0 := Sentence (sfrom a) []]> h).
Proof.
  intros Ha Hb Hne Hempty ids.
  destruct (plain_conversations_cons sep s0 s1 [] h a b Ha Hb) as [v1 [Hv1 Hrun]].
  erewrite get_value_ok in Hv1; [|by rewrite lookup_insert_ne].
  injection Hv1 as <-.
  unfold preprocess_plain. step_with (rewrite Hrun; reflexivity).
  cbn [map app].
  step_with (apply mask_targets_blank; [|done]).
  - cbn [length take]. step_with reflexivity. step_with reflexivity. done.
  - constructor; [|constructor].
    exists s0, (Sentence (sfrom a) []).
    split; [reflexivity|]. split; [apply lookup_insert_eq|done].
Qed.


(** ** The pipeline on a small dataset *)

Example getitem_demo :
  fst (getitem sep_demo open_demo resize_demo ds_demo 0 heap_demo)
  = inr (Example_ [100; 35; 102; 100; 119; 13; 2] [100; 35; 102; 100; 119; 13; 2]
                  (Some (Some img_a))).
Proof. vm_compute. reflexivity. Qed.

Example getitem_twice :
  let first := getitem sep_demo open_demo resize_demo ds_demo 0 heap_demo in
  fst (getitem sep_demo open_demo resize_demo ds_demo 0 (snd first)) = fst first.
Proof. vm_compute. reflexivity. Qed.

(** Without the copy, the writes land in the record: after
    [preprocess_multimodal] and [preprocess_plain] on the conversation of
    the record itself, the text of its first turn is gone. *)
Example preprocess_in_place :
  snd (bind (preprocess_multimodal [[1%positive; 2%positive]])
            (fun sources => preprocess_plain sep_demo sources tok_demo)
            heap_demo) !! 1%positive
  = Some (Sentence (py "human") []).
Proof. vm_compute. reflexivity. Qed.

Lemma allocated_demo : allocated heap_demo [[1%positive; 2%positive]].
Proof. repeat constructor; eexists; reflexivity. Qed.





Lemma preprocess_plain_assertion_witness :
  fst (preprocess_plain sep_demo [[1%positive; 2%positive]; [1%positive]]
                        tok_demo heap_demo) = inl AssertionError /\
  fst (preprocess_plain sep_demo [[1%positive; 2%positive]] tok_demo heap_demo)
    <> inl AssertionError.
Proof.
  split.
  - apply (preprocess_plain_assertion sep_demo
             [[1%positive; 2%positive]; [1%positive]] tok_demo heap_demo).
    + repeat constructor; eexists; reflexivity.
    + exists [1%positive]. split; [right; left|]. simpl. lia.
  - apply (preprocess_plain_assertion sep_demo [[1%positive; 2%positive]]
             tok_demo heap_demo).
    + exact allocated_demo.
    + intros source Hs. apply list_elem_of_In in Hs.
      destruct Hs as [<-|[]]. reflexivity.
Defined.

Lemma getitem_keeps_store_witness :
  (forall i, snd (getitem sep_demo open_demo resize_demo ds_demo i heap_demo)
               !! 1%positive
             = Some (Sentence (py "human")
                              (py "<image>" ++ sep_demo ++ py "describe"))) /\
  store_after sep_demo open_demo resize_demo ds_demo [0; 0; -1] heap_demo
    !! 1%positive
  = Some (Sentence (py "human") (py "<image>" ++ sep_demo ++ py "describe")).
Proof.
  apply (getitem_keeps_store sep_demo open_demo resize_demo ds_demo [0; 0; -1]
                             heap_demo 1%positive).
  reflexivity.
Defined.

(** * Further properties of the pipeline *)

(** ** preprocess_multimodal *)

Lemma strip_image_token_simple (v : pystr) :
  contains DEFAULT_IMAGE_TOKEN v = true ->
  contains DEFAULT_IMAGE_TOKEN (strip (replace DEFAULT_IMAGE_TOKEN [] v)) = false ->
  strip_image_token v = strip (replace DEFAULT_IMAGE_TOKEN [] v).
Proof.
  unfold strip_image_token. intros -> Habsent.
  destruct (strip_fixed (replace DEFAULT_IMAGE_TOKEN [] v)) as [Hl Hr].
  set (w := strip (replace DEFAULT_IMAGE_TOKEN [] v)) in *.
  destruct (rev w) as [|c r] eqn:Hrev.
  - apply (f_equal (@rev N)) in Hrev. rewrite rev_involutive in Hrev.
    rewrite Hrev. reflexivity.
  - assert (Hc : isspace c = false).
    { unfold rstrip in Hr. apply (f_equal (@rev N)) in Hr.
      rewrite rev_involutive, Hrev in Hr. by apply lstrip_fixed in Hr. }
    assert (Hstrip : strip (DEFAULT_IMAGE_TOKEN ++ py (String "010" EmptyString) ++ w)
                     = DEFAULT_IMAGE_TOKEN ++ py (String "010" EmptyString) ++ w).
    { unfold strip. change (lstrip (DEFAULT_IMAGE_TOKEN ++ ?x))
        with (DEFAULT_IMAGE_TOKEN ++ x).
      unfold rstrip. rewrite !rev_app_distr, Hrev.
      cbn [app lstrip]. rewrite Hc.
      change (c :: (r ++ ?x) ++ ?y) with (((c :: r) ++ x) ++ y).
      by rewrite <- Hrev, <- !rev_app_distr, rev_involutive. }
    rewrite Hstrip.
    assert (Hreplace : replace DEFAULT_IMAGE_TOKEN []
                         (DEFAULT_IMAGE_TOKEN ++ py (String "010" EmptyString) ++ w)
                       = py (String "010" EmptyString) ++ w).
    { unfold replace. cbn -[contains]. f_equal. by apply replace_absent. }
    rewrite Hreplace.
    unfold strip. change (lstrip (py (String "010" EmptyString) ++ w))
      with (lstrip w). by rewrite Hl, Hr.
Qed.

(** X1. For a value that contains the placeholder and is free of it once
    its occurrences are removed and the rest is stripped, the five
    assignments of the loop body amount to that removal and strip: the
    reinsertion and second removal change nothing, and the value that is
    left has no placeholder and no white space at either end. *)
Theorem strip_image_token_net_effect (v : pystr) :
  contains DEFAULT_IMAGE_TOKEN v = true ->
  contains DEFAULT_IMAGE_TOKEN (strip (replace DEFAULT_IMAGE_TOKEN [] v)) = false ->
  strip_image_token v = strip (replace DEFAULT_IMAGE_TOKEN [] v) /\
  contains DEFAULT_IMAGE_TOKEN (strip_image_token v) = false /\
  (forall c s', strip_image_token v = c :: s' -> isspace c = false) /\
  (forall c s', strip_image_token v = s' ++ [c] -> isspace c = false).
Proof.
  intros Hin Habsent. rewrite (strip_image_token_simple v Hin Habsent).
  split; [done|]. split; [done|]. split; intros c s' H.
  - eapply strip_no_leading_space, H.
  - eapply strip_no_trailing_space, H.
Qed.

Lemma strip_image_token_net_effect_witness :
  strip_image_token (py "<image> a cat on <image>a mat  ") = py "a cat on a mat" /\
  contains DEFAULT_IMAGE_TOKEN (strip_image_token (py "<image> a cat on <image>a mat  "))
    = false.
Proof.
  destruct (strip_image_token_net_effect (py "<image> a cat on <image>a mat  "))
    as [H1 [H2 _]]; [reflexivity|reflexivity|].
  split; [rewrite H1; reflexivity|exact H2].
Defined.


Lemma allocated_alter (f : sentence -> sentence) (k l : loc) (h : gmap loc sentence) :
  is_Some (h !! l) -> is_Some (alter f k h !! l).
Proof.
  intros [s Hs]. destruct (decide (k = l)) as [->|Hne].
  - rewrite lookup_alter_eq, Hs. simpl. eauto.
  - rewrite lookup_alter_ne by done. eauto.
Qed.

Lemma strip_image_placeholder_alter l h s :
  h !! l = Some s ->
  strip_image_placeholder l h = (inr tt, alter rewrite_sentence l h).
Proof.
  intros Hl. rewrite (strip_image_placeholder_ok l h s Hl). f_equal.
  apply map_eq. intros k. rewrite lookup_alter.
  destruct (contains DEFAULT_IMAGE_TOKEN (value s)) eqn:Hc.
  - case_decide as Hk.
    + subst k. by rewrite lookup_insert_eq, Hl.
    + by rewrite lookup_insert_ne.
  - case_decide as Hk; [|done]. subst k. rewrite Hl. simpl. f_equal.
    unfold rewrite_sentence. rewrite strip_image_token_unchanged by done.
    by destruct s.
Qed.

Lemma for_each_strip (ls : list loc) :
  forall h, Forall (fun l => is_Some (h !! l)) ls ->
  for_each strip_image_placeholder ls h
  = (inr tt, foldl (fun h l => alter rewrite_sentence l h) h ls).
Proof.
  induction ls as [|l ls IH]; intros h Hall; [done|].
  apply Forall_cons in Hall as [[s Hs] Hall]. cbn [for_each foldl].
  step_with (by eapply strip_image_placeholder_alter).
  apply IH. eapply Forall_impl; [exact Hall|].
  intros k Hk. by apply allocated_alter.
Qed.

Lemma foldl_alter_allocated (f : sentence -> sentence) (ls : list loc) :
  forall (h : gmap loc sentence) l,
    is_Some (h !! l) -> is_Some (foldl (fun h k => alter f k h) h ls !! l).
Proof.
  induction ls as [|k ls IH]; intros h l Hl; [done|].
  simpl. by apply IH, allocated_alter.
Qed.

Lemma for_each_strip_nested (sources : list (list loc)) :
  forall h, allocated h sources ->
  for_each (fun source => for_each strip_image_placeholder source) sources h
  = (inr tt, foldl (fun h l => alter rewrite_sentence l h) h (concat sources)).
Proof.
  induction sources as [|source rest IH]; intros h Halloc; [done|].
  apply Forall_cons in Halloc as [Hsource Halloc].
  cbn [for_each concat]. rewrite foldl_app.
  step_with (by apply for_each_strip).
  apply IH. eapply Forall_impl; [exact Halloc|]. intros src Hsrc. simpl in *.
  eapply Forall_impl; [exact Hsrc|]. intros l Hl. simpl in *.
  by apply foldl_alter_allocated.
Qed.

Lemma lookup_foldl_alter_nodup (f : sentence -> sentence) (ls : list loc) :
  forall (h : gmap loc sentence) l, NoDup ls ->
    foldl (fun h k => alter f k h) h ls !! l
    = if decide (l ∈ ls) then f <$> h !! l else h !! l.
Proof.
  induction ls as [|k ls IH]; intros h l Hnd.
  - cbn [foldl]. destruct (decide (l ∈ [])) as [H|_]; [|done].
    by apply elem_of_nil in H.
  - apply NoDup_cons in Hnd as [Hk Hnd]. cbn [foldl]. rewrite IH by done.
    destruct (decide (l ∈ ls)) as [Hin|Hnin].
    + rewrite (decide_True _ _ (list_elem_of_further l k ls Hin)).
      rewrite lookup_alter_ne; [done|]. by intros ->.
    + destruct (decide (k = l)) as [->|Hkl].
      * rewrite lookup_alter_eq.
        by rewrite (decide_True _ _ (list_elem_of_here l ls)).
      * rewrite lookup_alter_ne by done.
        rewrite decide_False; [done|].
        intros [?|?]%elem_of_cons; [by subst|done].
Qed.

(** X2. On conversations whose dicts are in the store,
    [preprocess_multimodal] does not raise and returns the list it was
    given; the writes of the loop body amount to one rewriting of each
    visited sentence. When no dict occurs twice, a sentence of the
    conversations ends with the value [strip_image_token] of its value and
    the [from] it had, and every other dict of the store is as it was. *)
Theorem preprocess_multimodal_spec (sources : list (list loc))
    (h : gmap loc sentence) :
  allocated h sources ->
  let h' := foldl (fun h l => alter rewrite_sentence l h) h (concat sources) in
  preprocess_multimodal sources h = (inr sources, h') /\
  (NoDup (concat sources) ->
   forall l, h' !! l = if decide (l ∈ concat sources)
                       then rewrite_sentence <$> h !! l else h !! l).
Proof.
  intros Halloc h'. split.
  - unfold preprocess_multimodal.
    step_with (by apply for_each_strip_nested). done.
  - intros Hnd l. by apply lookup_foldl_alter_nodup.
Qed.

Lemma preprocess_multimodal_spec_witness :
  fst (preprocess_multimodal [[1%positive; 2%positive]] heap_demo)
    = inr [[1%positive; 2%positive]] /\
  snd (preprocess_multimodal [[1%positive; 2%positive]] heap_demo) !! 1%positive
    = Some (Sentence (py "human") (py "describe")) /\
  snd (preprocess_multimodal [[1%positive; 2%positive]] heap_demo) !! 2%positive
    = Some (Sentence (py "gpt") (py "a cat")).
Proof.
  destruct (preprocess_multimodal_spec [[1%positive; 2%positive]] heap_demo
              allocated_demo) as [Hrun Hat].
  rewrite Hrun. cbn [fst snd]. split; [reflexivity|].
  assert (Hnd : NoDup (concat [[1%positive; 2%positive]])).
  { apply NoDup_ListNoDup. repeat constructor; simpl; intuition discriminate. }
  rewrite !(Hat Hnd). split; reflexivity.
Defined.

(** ** preprocess_plain: the store it leaves and the tensors it returns *)

Lemma readonly_bind {A B} (m : M A) (k : A -> M B) :
  readonly m -> (forall a, readonly (k a)) -> readonly (bind m k).
Proof.
  intros Hm Hk h. unfold bind. specialize (Hm h).
  destruct (m h) as [[e|a] h1]; simpl in *; subst; [done|]. apply Hk.
Qed.

Lemma readonly_ret {A} (a : A) : readonly (ret a).
Proof. done. Qed.

Lemma readonly_lift {A} (r : exn + A) : readonly (lift r).
Proof. done. Qed.

Lemma readonly_get_value (l : loc) : readonly (get_value l).
Proof. intros h. unfold get_value. by destruct (h !! l). Qed.

Lemma readonly_tokenized_len tok source : readonly (tokenized_len tok source).
Proof.
  unfold tokenized_len.
  apply readonly_bind; [apply readonly_lift|]. intros s0.
  apply readonly_bind; [apply readonly_get_value|]. intros v0.
  apply readonly_ret.
Qed.

Lemma readonly_mask_targets tok targets :
  forall sources, readonly (mask_targets tok targets sources).
Proof.
  induction targets as [|target targets IH]; intros [|source sources];
    try apply readonly_ret.
  cbn [mask_targets].
  apply readonly_bind; [apply readonly_tokenized_len|]. intros n.
  apply readonly_bind.
  { destruct (_ <? _)%nat; [apply readonly_lift|apply readonly_ret]. }
  intros target'. apply readonly_bind; [apply IH|]. intros ?. apply readonly_ret.
Qed.

Lemma snd_bind_readonly {A B} (m : M A) (k : A -> M B) h :
  (forall a, readonly (k a)) -> snd (bind m k h) = snd (m h).
Proof.
  intros Hk. unfold bind. destruct (m h) as [[e|a] h1]; [done|]. apply Hk.
Qed.

Lemma insert_blank_alter (h : gmap loc sentence) l s :
  h !! l = Some s -> <[l := Sentence (sfrom s) []]> h = alter blank_sentence l h.
Proof.
  intros Hl. apply map_eq. intros k. destruct (decide (l = k)) as [<-|Hne].
  - by rewrite lookup_insert_eq, lookup_alter_eq, Hl.
  - by rewrite lookup_insert_ne, lookup_alter_ne.
Qed.

Lemma lookup_foldl_alter_idem (f : sentence -> sentence) (ls : list loc) :
  (forall s, f (f s) = f s) ->
  forall (h : gmap loc sentence) l,
    foldl (fun h k => alter f k h) h ls !! l
    = if decide (l ∈ ls) then f <$> h !! l else h !! l.
Proof.
  intros Hidem. induction ls as [|k ls IH]; intros h l.
  - cbn [foldl]. destruct (decide (l ∈ [])) as [H|_]; [|done].
    by apply elem_of_nil in H.
  - cbn [foldl]. rewrite IH.
    destruct (decide (k = l)) as [->|Hkl].
    + rewrite lookup_alter_eq.
      rewrite (decide_True _ _ (list_elem_of_here l ls)).
      destruct (decide (l ∈ ls)); [|done].
      destruct (h !! l); simpl; [|done]. by rewrite Hidem.
    + rewrite lookup_alter_ne by done.
      destruct (decide (l ∈ ls)) as [Hin|Hnin].
      * by rewrite (decide_True _ _ (list_elem_of_further l k ls Hin)).
      * rewrite decide_False; [done|].
        intros [?|?]%elem_of_cons; [by subst|done].
Qed.

(** The first loop on two-turn conversations: the store it leaves, and the
    conversation texts when no second turn is a first turn. *)
Lemma plain_conversations_run sep sources :
  forall h, Forall (fun source => length source = 2%nat) sources ->
  allocated h sources ->
  exists conversations,
    plain_conversations sep sources h
    = (inr conversations,
       foldl (fun h l => alter blank_sentence l h) h (first_turns sources)) /\
    (turns_apart sources ->
     conversations = map (fun source => second_text h source ++ sep) sources).
Proof.
  induction sources as [|source rest IH]; intros h Htwo Halloc.
  - exists []. split; done.
  - apply Forall_cons in Htwo as [Hlen Htwo].
    apply Forall_cons in Halloc as [Hsource Halloc].
    destruct source as [|s0 [|s1 [|? ?]]]; try discriminate.
    apply Forall_cons in Hsource as [[a Ha] Hsource].
    apply Forall_cons in Hsource as [[b Hb] _].
    destruct (plain_conversations_cons sep s0 s1 rest h a b Ha Hb)
      as [v1 [Hv1 ->]].
    rewrite (insert_blank_alter _ _ _ Ha) in *.
    set (h1 := alter blank_sentence s0 h) in *.
    assert (Halloc1 : allocated h1 rest).
    { eapply Forall_impl; [exact Halloc|]. intros src Hsrc. simpl in *.
      eapply Forall_impl; [exact Hsrc|]. intros l Hl. simpl in *.
      by apply allocated_alter. }
    destruct (IH h1 Htwo Halloc1) as (convs & Hrun & Htexts).
    exists (([] ++ v1 ++ sep) :: convs). split.
    + erewrite bind_inr; [|exact Hrun]. reflexivity.
    + intros Hapart. cbn [map app]. f_equal.
      * f_equal. cbn [second_text]. rewrite Hb.
        assert (Hne : s0 <> s1).
        { intros ->. apply (Hapart [s1; s1] s1); [left|done|left]. }
        unfold get_value in Hv1. unfold h1 in Hv1.
        rewrite lookup_alter_ne, Hb in Hv1 by done. by injection Hv1 as <-.
      * rewrite Htexts.
        -- apply map_ext_in. intros src Hsrc%list_elem_of_In. f_equal.
           destruct src as [|t0 [|t1 [|? ?]]]; try done.
           cbn [second_text]. unfold h1.
           rewrite lookup_alter_ne; [done|]. intros ->.
           apply (Hapart [t0; t1] t1); [by right|done|left].
        -- intros src t1 Hsrc Ht1 Hin.
           apply (Hapart src t1); [by right|done|]. by right.
Qed.

Lemma mask_targets_type_error tok target targets source sources h :
  first_blank h source -> encode tok [] <> [] ->
  mask_targets tok (target :: targets) (source :: sources) h = (inl TypeError, h).
Proof.
  intros Hblank Hne. cbn [mask_targets].
  step_with (by apply tokenized_len_blank).
  destruct (encode tok []); [done|]. reflexivity.
Qed.

Lemma torch_tensor_rectangular rows :
  (rectangular rows -> torch_tensor rows = inr rows) /\
  (~ rectangular rows -> torch_tensor rows = inl ValueError).
Proof.
  destruct rows as [|r rest]; [split; [done|]|].
  { intros H. destruct H. intros r r' Hr. by apply elem_of_nil in Hr. }
  cbn [torch_tensor].
  destruct (forallb (fun r' => (length r' =? length r)%nat) rest) eqn:Hall.
  - split; [done|]. intros H. destruct H.
    rewrite forallb_forall in Hall.
    assert (Hlen : forall x, x ∈ r :: rest -> length x = length r).
    { intros x [->|Hx]%elem_of_cons; [done|].
      by apply Nat.eqb_eq, Hall, list_elem_of_In. }
    intros x y Hx Hy. by rewrite (Hlen x Hx), (Hlen y Hy).
  - split; [|done]. intros Hrect.
    assert (Htrue : forallb (fun r' => (length r' =? length r)%nat) rest = true).
    { apply forallb_forall. intros x Hx%list_elem_of_In.
      apply Nat.eqb_eq, Hrect; [by right|left]. }
    congruence.
Qed.

Lemma readonly_plain_rest tok sources (conversations : list pystr) :
  readonly
    (let input_ids :=
       map (fun prompt => encode tok prompt ++ [eos_token_id tok]) conversations in
     bind (mask_targets tok input_ids sources)
          (fun targets =>
             bind (lift (torch_tensor input_ids))
                  (fun input_ids =>
                     bind (lift (torch_tensor targets))
                          (fun targets => ret (DataDict input_ids targets))))).
Proof.
  cbv zeta.
  apply readonly_bind; [apply readonly_mask_targets|]. intros ?.
  apply readonly_bind; [apply readonly_lift|]. intros ?.
  apply readonly_bind; [apply readonly_lift|]. intros ?.
  apply readonly_ret.
Qed.

(** X3. On two-turn conversations that are in the store, whatever
    [preprocess_plain] returns or raises after its first loop, it leaves the
    first turn of each conversation with the empty text and the [from] it
    had, and every other dict of the store as it was: the blanking of
    line 39 is a write to the caller's conversation. *)
Theorem preprocess_plain_store sep (sources : list (list loc))
    (tok : tokenizer) (h : gmap loc sentence) :
  Forall (fun source => length source = 2%nat) sources ->
  allocated h sources ->
  forall l,
    snd (preprocess_plain sep sources tok h) !! l
    = if decide (l ∈ first_turns sources)
      then blank_sentence <$> h !! l else h !! l.
Proof.
  intros Htwo Halloc l. unfold preprocess_plain.
  rewrite snd_bind_readonly by (intros convs; apply readonly_plain_rest).
  destruct (plain_conversations_run sep sources h Htwo Halloc) as (convs & -> & _).
  cbn [snd]. by apply lookup_foldl_alter_idem.
Qed.

Lemma preprocess_plain_store_witness :
  snd (preprocess_plain sep_demo [[1%positive; 2%positive]] tok_bos heap_demo)
    !! 1%positive = Some (Sentence (py "human") []) /\
  snd (preprocess_plain sep_demo [[1%positive; 2%positive]] tok_bos heap_demo)
    !! 2%positive = Some (Sentence (py "gpt") (py "a cat")).
Proof.
  split.
  - rewrite (preprocess_plain_store sep_demo [[1%positive; 2%positive]] tok_bos
               heap_demo); [reflexivity|by repeat constructor|exact allocated_demo].
  - rewrite (preprocess_plain_store sep_demo [[1%positive; 2%positive]] tok_bos
               heap_demo); [reflexivity|by repeat constructor|exact allocated_demo].
Defined.

(** X4. With a tokenizer that encodes the empty string as a non-empty
    sequence (one that adds a special token to every text),
    [preprocess_plain] raises [TypeError] on every non-empty list of two-turn
    conversations: the prefix to mask is not empty, and line 52 assigns an
    int to a slice of a list. *)
Theorem preprocess_plain_type_error sep (sources : list (list loc))
    (tok : tokenizer) (h : gmap loc sentence) :
  sources <> [] ->
  Forall (fun source => length source = 2%nat) sources ->
  allocated h sources ->
  encode tok [] <> [] ->
  fst (preprocess_plain sep sources tok h) = inl TypeError.
Proof.
  intros Hne Htwo Halloc Hbos.
  destruct (plain_conversations_ok sep _ _ Htwo Halloc)
    as (convs & h1 & Hrun & Hlen & Hblank & _).
  unfold preprocess_plain. step_with (exact Hrun).
  destruct sources as [|source rest]; [done|].
  destruct convs as [|conv convs]; [done|].
  apply Forall_cons in Hblank as [Hblank _]. cbn [map].
  erewrite bind_inl; [reflexivity|].
  by apply mask_targets_type_error.
Qed.

Lemma preprocess_plain_type_error_witness :
  fst (preprocess_plain sep_demo [[1%positive; 2%positive]] tok_bos heap_demo)
  = inl TypeError.
Proof.
  apply (preprocess_plain_type_error sep_demo [[1%positive; 2%positive]] tok_bos
                                     heap_demo).
  - discriminate.
  - by repeat constructor.
  - exact allocated_demo.
  - discriminate.
Defined.

(** X5. With a tokenizer that encodes the empty string as the empty
    sequence, on two-turn conversations in the store of which no second turn
    is a first turn: the row of a conversation is the ids of the text of its
    second turn followed by the separator, then the end-of-sequence id; the
    text of the first turn plays no part. When the rows have one length
    [preprocess_plain] returns them as [input_ids] and as [labels]; when
    they do not, it raises [ValueError]. *)
Theorem preprocess_plain_rows sep (sources : list (list loc))
    (tok : tokenizer) (h : gmap loc sentence) :
  Forall (fun source => length source = 2%nat) sources ->
  allocated h sources ->
  turns_apart sources ->
  encode tok [] = [] ->
  let rows := map (fun source => encode tok (second_text h source ++ sep)
                                 ++ [eos_token_id tok]) sources in
  (rectangular rows ->
     fst (preprocess_plain sep sources tok h) = inr (DataDict rows rows)) /\
  (~ rectangular rows ->
     fst (preprocess_plain sep sources tok h) = inl ValueError).
Proof.
  intros Htwo Halloc Hapart Hempty rows.
  destruct (plain_conversations_ok sep _ _ Htwo Halloc)
    as (convs & h1 & Hrun & Hlen & Hblank & _).
  destruct (plain_conversations_run sep sources h Htwo Halloc)
    as (convs' & Hrun' & Htexts).
  rewrite Hrun in Hrun'. injection Hrun' as <- _.
  specialize (Htexts Hapart).
  assert (Hrows : map (fun prompt => encode tok prompt ++ [eos_token_id tok]) convs
                  = rows).
  { rewrite Htexts, map_map. done. }
  assert (Hpp : preprocess_plain sep sources tok h
                = bind (lift (torch_tensor rows))
                       (fun input_ids =>
                          bind (lift (torch_tensor rows))
                               (fun targets => ret (DataDict input_ids targets))) h1).
  { unfold preprocess_plain. step_with (exact Hrun). rewrite Hrows.
    step_with (by apply mask_targets_blank).
    rewrite take_ge; [done|]. unfold rows. rewrite length_map. lia. }
  rewrite Hpp. destruct (torch_tensor_rectangular rows) as [Hok Herr]. split.
  - intros Hrect. unfold bind, lift. by rewrite (Hok Hrect).
  - intros Hrag. unfold bind, lift. by rewrite (Herr Hrag).
Qed.

Lemma turns_apart_demo (a b c d : positive) :
  b <> a -> b <> c -> d <> a -> d <> c -> turns_apart [[a; b]; [c; d]].
Proof.
  intros Hba Hbc Hda Hdc source s1 Hsource Hs1 Hin.
  apply list_elem_of_In in Hsource, Hin. simpl in Hsource, Hin.
  destruct Hsource as [<-|[<-|[]]]; injection Hs1 as <-;
    destruct Hin as [?|[?|[]]]; congruence.
Qed.

Lemma preprocess_plain_rows_witness :
  fst (preprocess_plain sep_demo [[1%positive; 2%positive]; [3%positive; 4%positive]]
                        tok_demo heap_two)
    = inr (DataDict [[100; 35; 102; 100; 119; 13; 2]; [100; 35; 103; 114; 106; 13; 2]]
                    [[100; 35; 102; 100; 119; 13; 2]; [100; 35; 103; 114; 106; 13; 2]]) /\
  fst (preprocess_plain sep_demo [[1%positive; 2%positive]; [3%positive; 6%positive]]
                        tok_demo heap_two)
    = inl ValueError.
Proof.
  split.
  - apply (preprocess_plain_rows sep_demo
             [[1%positive; 2%positive]; [3%positive; 4%positive]] tok_demo heap_two).
    + by repeat constructor.
    + repeat constructor; eexists; reflexivity.
    + by apply turns_apart_demo.
    + reflexivity.
    + intros r r' Hr Hr'. apply list_elem_of_In in Hr, Hr'.
      simpl in Hr, Hr'.
      destruct Hr as [<-|[<-|[]]], Hr' as [<-|[<-|[]]]; reflexivity.
  - apply (preprocess_plain_rows sep_demo
             [[1%positive; 2%positive]; [3%positive; 6%positive]] tok_demo heap_two).
    + by repeat constructor.
    + repeat constructor; eexists; reflexivity.
    + by apply turns_apart_demo.
    + reflexivity.
    + intros Hrect.
      assert (H : length [100; 35; 102; 100; 119; 13; 2]
                  = length [100; 35; 107; 114; 117; 118; 104; 13; 2]).
      { apply Hrect; [left|right; left]. }
      discriminate H.
Defined.

(** ** expand2square and __init__ *)

(** X6. The result of [expand2square] is always square, of side the larger
    of the width and the height of its input, and [expand2square] leaves it
    as it is: padding twice, with any colours, is padding once. *)
Theorem expand2square_idempotent (pil_img : pil_image) (bg bg' : color) :
  let side := Z.max (fst (size pil_img)) (snd (size pil_img)) in
  size (expand2square pil_img bg) = (side, side) /\
  expand2square (expand2square pil_img bg) bg' = expand2square pil_img bg.
Proof.
  unfold expand2square at 1 3 4. destruct (size pil_img) as [w h] eqn:Hsize.
  cbn [fst snd].
  destruct (Z.eqb_spec w h) as [->|Hne].
  - rewrite Hsize, Z.max_id. split; [done|].
    unfold expand2square. by rewrite Hsize, Z.eqb_refl.
  - destruct (Z.gtb_spec w h) as [Hgt|Hle].
    + replace (Z.max w h) with w by lia.
      unfold paste, Image_new. rewrite Hsize. cbn [size mode].
      split; [done|]. unfold expand2square. cbn [size]. by rewrite Z.eqb_refl.
    + replace (Z.max w h) with h by lia.
      unfold paste, Image_new. rewrite Hsize. cbn [size mode].
      split; [done|]. unfold expand2square. cbn [size]. by rewrite Z.eqb_refl.
Qed.

Lemma filter_filter_has_image (data : list item) :
  List.filter has_image (List.filter has_image data) = List.filter has_image data.
Proof.
  induction data as [|it data IH]; [done|]. simpl.
  destruct (has_image it) eqn:Hit; [|done]. simpl. by rewrite Hit, IH.
Qed.

(** X7. [__init__] raises [AssertionError] exactly when the crop size of the
    processor is not square, whatever the records. When it returns, the
    dataset is no longer than the input, and building a dataset again from
    the records it kept gives the same dataset. *)
Theorem init_crop_assertion (tok : tokenizer) (p2s : bool) (data : list item)
    (proc : image_processor) :
  (crop_size_height proc <> crop_size_width proc <->
   init tok p2s data proc = inl AssertionError) /\
  (forall ds, init tok p2s data proc = inr ds ->
     (len ds <= length data)%nat /\
     init tok p2s (list_data_dict ds) proc = inr ds).
Proof.
  unfold init. rewrite init_loop. cbn [app]. split.
  - destruct (Z.eqb_spec (crop_size_height proc) (crop_size_width proc)); split;
      try done.
  - intros ds.
    destruct (Z.eqb_spec (crop_size_height proc) (crop_size_width proc)); [|done].
    intros [= <-]. unfold len. cbn [list_data_dict]. split.
    + apply filter_length_le.
    + by rewrite init_loop, app_nil_l, filter_filter_has_image.
Qed.

Lemma init_crop_assertion_witness :
  init tok_demo false data_demo (ImageProcessor 336 224 (fun _ => inr img_a))
    = inl AssertionError /\
  exists ds, init tok_demo false data_demo proc_demo = inr ds /\
    (len ds <= 3)%nat /\
    init tok_demo false (list_data_dict ds) proc_demo = inr ds.
Proof.
  destruct (init_crop_assertion tok_demo false data_demo
              (ImageProcessor 336 224 (fun _ => inr img_a))) as [[Hne _] _].
  split; [apply Hne; discriminate|].
  destruct (init_crop_assertion tok_demo false data_demo proc_demo) as [_ Hds].
  eexists. split; [reflexivity|]. apply Hds. reflexivity.
Defined.

(** ** __getitem__ *)

Lemma py_index_wrap {A} (l : list A) (i : Z) :
  0 <= i < Z.of_nat (length l) ->
  py_index l (i - Z.of_nat (length l)) = py_index l i.
Proof.
  intros Hi. unfold py_index.
  destruct (Z.ltb_spec (i - Z.of_nat (length l)) 0); [|lia].
  destruct (Z.ltb_spec i 0); [lia|].
  by replace (i - Z.of_nat (length l) + Z.of_nat (length l)) with i by lia.
Qed.

Lemma py_index_out_of_range {A} (l : list A) (i : Z) :
  i < - Z.of_nat (length l) \/ Z.of_nat (length l) <= i ->
  py_index l i = inl IndexError.
Proof.
  intros Hi. unfold py_index.
  destruct (Z.ltb_spec i 0).
  - destruct (Z.leb_spec 0 (i + Z.of_nat (length l))); [lia|done].
  - destruct (Z.ltb_spec i (Z.of_nat (length l))); [lia|].
    by rewrite andb_false_r.
Qed.

Lemma py_index_in_range {A} (l : list A) (i : Z) :
  - Z.of_nat (length l) <= i < Z.of_nat (length l) ->
  exists x, py_index l i = inr x.
Proof.
  intros Hi. unfold py_index.
  set (j := if i <? 0 then i + Z.of_nat (length l) else i).
  assert (Hj : 0 <= j < Z.of_nat (length l)).
  { unfold j. destruct (Z.ltb_spec i 0); lia. }
  destruct (Z.leb_spec 0 j); [|lia].
  destruct (Z.ltb_spec j (Z.of_nat (length l))); [|lia]. cbn [andb].
  destruct (lookup_lt_is_Some_2 l (Z.to_nat j)) as [x ->]; [lia|]. eauto.
Qed.

Section GetItemIndex.

Variable sep : pystr.
Variable Image_open_rgb : pystr -> exn + pil_image.
Variable Image_resize_bicubic : pil_image -> Z * Z -> exn + pil_image.

(** X8. A negative index counts from the end, as on a Python list: for
    [0 <= i < len(dataset)], the fetch of [i - len(dataset)] is the fetch
    of [i], result and store. *)
Theorem getitem_negative_index (self : dataset) (i : Z) (h : gmap loc sentence) :
  0 <= i < Z.of_nat (len self) ->
  getitem sep Image_open_rgb Image_resize_bicubic self (i - Z.of_nat (len self)) h
  = getitem sep Image_open_rgb Image_resize_bicubic self i h.
Proof.
  intros Hi. unfold getitem, len in *. by rewrite (py_index_wrap _ i Hi).
Qed.

(** X9. A fetch with an index outside [-len(dataset) <= i < len(dataset)]
    raises [IndexError]; nothing is read from disk and the store is left as
    it is. *)
Theorem getitem_index_error (self : dataset) (i : Z) (h : gmap loc sentence) :
  (i < - Z.of_nat (len self) \/ Z.of_nat (len self) <= i) ->
  getitem sep Image_open_rgb Image_resize_bicubic self i h = (inl IndexError, h).
Proof.
  intros Hi. unfold getitem, len in *.
  by rewrite (py_index_out_of_range _ i Hi).
Qed.

End GetItemIndex.

Lemma getitem_negative_index_witness :
  getitem sep_demo open_demo resize_demo ds_demo (-1) heap_demo
  = getitem sep_demo open_demo resize_demo ds_demo 0 heap_demo.
Proof.
  apply (getitem_negative_index sep_demo open_demo resize_demo ds_demo 0 heap_demo).
  unfold len. simpl. lia.
Defined.

Lemma getitem_index_error_witness :
  getitem sep_demo open_demo resize_demo ds_demo 1 heap_demo
  = (inl IndexError, heap_demo).
Proof.
  apply (getitem_index_error sep_demo open_demo resize_demo ds_demo 1 heap_demo).
  right. unfold len. simpl. lia.
Defined.

Ltac inv_step H x Hx :=
  let h := fresh "h" in apply bind_inv_inr in H as (x & h & Hx & H).

Lemma py_assert_inv (b : bool) h u h' : py_assert b h = (inr u, h') -> b = true.
Proof. destruct b; [done|]. by intros [= ]. Qed.

Section GetItemReturns.

Variable sep : pystr.
Variable Image_open_rgb : pystr -> exn + pil_image.
Variable Image_resize_bicubic : pil_image -> Z * Z -> exn + pil_image.

(** What a fetch that returns has gone through. *)
Lemma getitem_inv (self : dataset) (i : Z) (h : gmap loc sentence)
    (ex : example) (h' : gmap loc sentence) :
  getitem sep Image_open_rgb Image_resize_bicubic self i h = (inr ex, h') ->
  exists it f img img' t conversation,
    py_index (list_data_dict self) i = inr it /\
    image it = Some f /\
    Image_open_rgb (os_path_join (image_root self) f) = inr img /\
    Image_resize_bicubic
      (if pad2square self then expand2square img (background_color self) else img)
      (crop_size_height (processor self), crop_size_height (processor self))
      = inr img' /\
    preprocess (processor self) img' = inr t /\
    ex_image ex = Some (Some t) /\
    ex_input_ids ex
      = encode (ds_tokenizer self) conversation ++ [eos_token_id (ds_tokenizer self)] /\
    ex_labels ex = ex_input_ids ex.
Proof.
  intros H. unfold getitem in H.
  inv_step H it Hit. apply lift_inr in Hit.
  inv_step H u1 Hu1.
  inv_step H s0 Hs0. apply lift_inr in Hs0. rewrite py_index_0 in Hs0.
  injection Hs0 as <-.
  inv_step H u2 Hu2. apply py_assert_inv in Hu2.
  inv_step H it2 Hit2. apply lift_inr in Hit2.
  rewrite Hit in Hit2. injection Hit2 as <-.
  inv_step H f Hf. apply lift_inr in Hf.
  inv_step H img Himg. apply lift_inr in Himg.
  inv_step H img' Himg'. apply lift_inr in Himg'.
  inv_step H t Ht. apply lift_inr in Ht.
  inv_step H copied Hcopied.
  inv_step H sources Hsources.
  inv_step H out Hout.
  inv_step H ids0 Hids0. apply lift_inr in Hids0.
  inv_step H labels0 Hlabels0. apply lift_inr in Hlabels0.
  inv_step H it3 Hit3. apply lift_inr in Hit3.
  rewrite Hit in Hit3. injection Hit3 as <-.
  inv_step H entry Hentry.
  rewrite Hu2 in Hentry. injection Hentry as <- _.
  injection H as <- _.
  destruct (preprocess_plain_inr _ _ _ _ _ _ Hout) as (convs & _ & Hrows & Hlab).
  rewrite Hlab in Hlabels0. rewrite Hids0 in Hlabels0. injection Hlabels0 as <-.
  apply py_index_elem_of in Hids0. rewrite Hrows in Hids0.
  apply list_elem_of_fmap in Hids0 as [conv [-> _]].
  destruct (image it) as [f'|] eqn:Himage; [|done]. injection Hf as <-.
  exists it, f', img, img', t, conv. done.
Qed.

(** X10. Whenever a fetch returns, the [image] of the example is the tensor
    that the processor makes of the file of the record, opened, padded to a
    square when [pad2square] is set, and resized to the crop size; the
    zero tensor of line 145 is never returned, since the assertion of
    line 115 has passed. *)
Theorem getitem_image (self : dataset) (i : Z) (h : gmap loc sentence)
    (ex : example) (h' : gmap loc sentence) :
  getitem sep Image_open_rgb Image_resize_bicubic self i h = (inr ex, h') ->
  exists it f img img' t,
    py_index (list_data_dict self) i = inr it /\
    image it = Some f /\
    Image_open_rgb (os_path_join (image_root self) f) = inr img /\
    Image_resize_bicubic
      (if pad2square self then expand2square img (background_color self) else img)
      (crop_size_height (processor self), crop_size_height (processor self))
      = inr img' /\
    preprocess (processor self) img' = inr t /\
    ex_image ex = Some (Some t).
Proof.
  intros H. destruct (getitem_inv _ _ _ _ _ H)
    as (it & f & img & img' & t & conv & ? & ? & ? & ? & ? & ? & _).
  exists it, f, img, img', t. done.
Qed.

(** X11. Whenever a fetch returns, the labels of the example are its ids, as
    many and the same, and the ids end with the end-of-sequence id; with a
    tokenizer whose ids are indices into its vocabulary, no label is
    [IGNORE_INDEX]: the whole caption is trained on. *)
Theorem getitem_labels (self : dataset) (i : Z) (h : gmap loc sentence)
    (ex : example) (h' : gmap loc sentence) :
  getitem sep Image_open_rgb Image_resize_bicubic self i h = (inr ex, h') ->
  ex_labels ex = ex_input_ids ex /\
  last (ex_input_ids ex) = Some (eos_token_id (ds_tokenizer self)) /\
  (valid_ids (ds_tokenizer self) ->
   Forall (fun x => x <> IGNORE_INDEX) (ex_labels ex)).
Proof.
  intros H. destruct (getitem_inv _ _ _ _ _ H)
    as (it & f & img & img' & t & conv & _ & _ & _ & _ & _ & _ & Hids & Hlab).
  split; [done|]. rewrite Hlab, Hids. split; [apply last_snoc|].
  intros [Heos Hvalid]. apply Forall_app. split.
  - apply Forall_forall. intros x Hx%Hvalid. unfold IGNORE_INDEX. lia.
  - constructor; [|constructor]. unfold IGNORE_INDEX. lia.
Qed.

End GetItemReturns.

Lemma getitem_image_witness :
  exists it f img img' t,
    py_index (list_data_dict ds_demo) 0 = inr it /\
    image it = Some f /\
    open_demo (os_path_join (image_root ds_demo) f) = inr img /\
    resize_demo
      (if pad2square ds_demo then expand2square img (background_color ds_demo)
       else img)
      (crop_size_height (processor ds_demo), crop_size_height (processor ds_demo))
      = inr img' /\
    preprocess (processor ds_demo) img' = inr t /\
    Some (Some img_a) = Some (Some t).
Proof.
  apply (getitem_image sep_demo open_demo resize_demo ds_demo 0 heap_demo
           (Example_ [100; 35; 102; 100; 119; 13; 2]
                     [100; 35; 102; 100; 119; 13; 2] (Some (Some img_a)))
           (snd (getitem sep_demo open_demo resize_demo ds_demo 0 heap_demo))).
  vm_compute. reflexivity.
Defined.

Lemma getitem_labels_witness :
  let ex := Example_ [100; 35; 102; 100; 119; 13; 2]
                     [100; 35; 102; 100; 119; 13; 2] (Some (Some img_a)) in
  ex_labels ex = ex_input_ids ex /\
  last (ex_input_ids ex) = Some 2 /\
  (valid_ids tok_demo -> Forall (fun x => x <> IGNORE_INDEX) (ex_labels ex)).
Proof.
  apply (getitem_labels sep_demo open_demo resize_demo ds_demo 0 heap_demo _
           (snd (getitem sep_demo open_demo resize_demo ds_demo 0 heap_demo))).
  vm_compute. reflexivity.
Defined.

Lemma deepcopy_dict_fresh (memo : gmap loc loc) (l : loc)
    (h : gmap loc sentence) (s : sentence) :
  memo !! l = None -> h !! l = Some s ->
  deepcopy_dict memo l h
  = (inr (fresh (dom h), <[l := fresh (dom h)]> memo), <[fresh (dom h) := s]> h).
Proof.
  intros Hmemo Hl. unfold deepcopy_dict. rewrite Hmemo.
  step_with (unfold load; by rewrite Hl).
  step_with reflexivity. reflexivity.
Qed.

Lemma deepcopy_list_two (h : gmap loc sentence) (s0 s1 : loc) (a b : sentence) :
  h !! s0 = Some a -> h !! s1 = Some b -> s0 <> s1 ->
  deepcopy_list ∅ [s0; s1] h
  = (inr ([fresh (dom h); fresh (dom (<[fresh (dom h) := a]> h))],
          <[s1 := fresh (dom (<[fresh (dom h) := a]> h))]>
            (<[s0 := fresh (dom h)]> ∅)),
     <[fresh (dom (<[fresh (dom h) := a]> h)) := b]> (<[fresh (dom h) := a]> h)).
Proof.
  intros Ha Hb Hne.
  assert (Hl0 : fresh (dom h) <> s1).
  { intros Heq. apply (is_fresh (dom h)). rewrite Heq. apply elem_of_dom. eauto. }
  cbn [deepcopy_list].
  step_with (by apply deepcopy_dict_fresh). cbv beta iota.
  step_with (step_with (apply deepcopy_dict_fresh;
                        [by rewrite lookup_insert_ne|by rewrite lookup_insert_ne]);
             cbv beta iota; step_with reflexivity; reflexivity).
  reflexivity.
Qed.

Lemma deepcopy_two_turn (h : gmap loc sentence) (s0 s1 : loc) (a b : sentence) :
  h !! s0 = Some a -> h !! s1 = Some b -> s0 <> s1 ->
  deepcopy [[s0; s1]] h
  = (inr [[fresh (dom h); fresh (dom (<[fresh (dom h) := a]> h))]],
     <[fresh (dom (<[fresh (dom h) := a]> h)) := b]> (<[fresh (dom h) := a]> h)).
Proof.
  intros Ha Hb Hne. unfold deepcopy. cbn [deepcopy_lists].
  step_with (step_with (by eapply deepcopy_list_two); cbv beta iota;
             step_with reflexivity; reflexivity).
  reflexivity.
Qed.

Lemma preprocess_multimodal_run (sources : list (list loc)) (h : gmap loc sentence) :
  allocated h sources ->
  preprocess_multimodal sources h
  = (inr sources, foldl (fun h l => alter rewrite_sentence l h) h (concat sources)).
Proof.
  intros Halloc. unfold preprocess_multimodal.
  step_with (by apply for_each_strip_nested). done.
Qed.

Section GetItemCaption.

Variable sep : pystr.
Variable Image_open_rgb : pystr -> exn + pil_image.
Variable Image_resize_bicubic : pil_image -> Z * Z -> exn + pil_image.

(** X12. The fetch of a record with an image file that opens, resizes and
    preprocesses to the tensor [t], and a conversation of two distinct
    dicts, under a tokenizer that encodes the empty string as the empty
    sequence, returns: the ids, and the same as labels, of the text of the
    second turn after the rewriting of [preprocess_multimodal], followed by
    the separator, then the end-of-sequence id; and [t] as image. The text
    of the first turn (the instruction) has no part in the example. *)
Theorem getitem_caption (self : dataset) (i : Z) (h : gmap loc sentence)
    (it : item) (f : pystr) (s0 s1 : loc) (a b : sentence)
    (img img' : pil_image) (t : tensor) :
  py_index (list_data_dict self) i = inr it ->
  image it = Some f ->
  conversations it = [s0; s1] ->
  s0 <> s1 -> h !! s0 = Some a -> h !! s1 = Some b ->
  Image_open_rgb (os_path_join (image_root self) f) = inr img ->
  Image_resize_bicubic
    (if pad2square self then expand2square img (background_color self) else img)
    (crop_size_height (processor self), crop_size_height (processor self))
    = inr img' ->
  preprocess (processor self) img' = inr t ->
  encode (ds_tokenizer self) [] = [] ->
  let ids := encode (ds_tokenizer self) (strip_image_token (value b) ++ sep)
             ++ [eos_token_id (ds_tokenizer self)] in
  fst (getitem sep Image_open_rgb Image_resize_bicubic self i h)
  = inr (Example_ ids ids (Some (Some t))).
Proof.
  intros Hit Himage Hconv Hne Ha Hb Himg Himg' Ht Hempty ids.
  assert (Hhas : has_image it = true) by (unfold has_image; by rewrite Himage).
  unfold getitem.
  step_with (apply lift_eq, Hit).
  step_with reflexivity. step_with reflexivity.
  step_with (rewrite Hhas; reflexivity).
  step_with (apply lift_eq, Hit).
  step_with (rewrite Himage; reflexivity).
  step_with (apply lift_eq, Himg).
  step_with (apply lift_eq, Himg').
  step_with (apply lift_eq, Ht).
  cbn [map]. rewrite Hconv.
  step_with (by apply deepcopy_two_turn).
  set (l0 := fresh (dom h)).
  set (h1 := <[l0 := a]> h).
  set (l1 := fresh (dom h1)).
  set (h2 := <[l1 := b]> h1).
  assert (Hl01 : l0 <> l1).
  { intros Heq. apply (is_fresh (dom h1)). fold l1. rewrite <- Heq.
    apply elem_of_dom. unfold h1. rewrite lookup_insert_eq. eauto. }
  assert (H20 : h2 !! l0 = Some a).
  { unfold h2, h1. by rewrite lookup_insert_ne, lookup_insert_eq. }
  assert (H21 : h2 !! l1 = Some b).
  { unfold h2. by rewrite lookup_insert_eq. }
  step_with (apply preprocess_multimodal_run;
             repeat constructor; eexists; eassumption).
  cbn [concat app foldl].
  set (h3 := alter rewrite_sentence l1 (alter rewrite_sentence l0 h2)).
  assert (H30 : h3 !! l0 = Some (rewrite_sentence a)).
  { unfold h3. by rewrite lookup_alter_ne, lookup_alter_eq, H20. }
  assert (H31 : h3 !! l1 = Some (rewrite_sentence b)).
  { unfold h3. by rewrite lookup_alter_eq, lookup_alter_ne, H21. }
  step_with (by apply (preprocess_plain_two_turn sep l0 l1 _ h3 _ _ H30 H31)).
  cbn [input_ids labels value rewrite_sentence].
  step_with reflexivity. step_with reflexivity.
  step_with (apply lift_eq, Hit).
  rewrite Hhas. step_with reflexivity. reflexivity.
Qed.

End GetItemCaption.

Lemma getitem_caption_witness :
  fst (getitem sep_demo open_demo resize_demo ds_demo 0 heap_demo)
  = inr (Example_ [100; 35; 102; 100; 119; 13; 2] [100; 35; 102; 100; 119; 13; 2]
                  (Some (Some img_a))).
Proof.
  apply (getitem_caption sep_demo open_demo resize_demo ds_demo 0 heap_demo
           (Item (Some (py "a.jpg")) [1%positive; 2%positive]) (py "a.jpg")
           1%positive 2%positive
           (Sentence (py "human") (py "<image>" ++ sep_demo ++ py "describe"))
           (Sentence (py "gpt") (py "a cat"))
           img_wide
           (PilImage (py "RGB") (336, 336)
                     (getpixel (expand2square img_wide (123, 116, 103))))
           img_a);
    try reflexivity.
  discriminate.
Defined.

(** ** collate_fn: errors and the content of the rows *)

(** X13. [collate_fn] raises [RuntimeError] on the empty list, whatever the
    tokenizer and the target length: [pad_sequence] has nothing to pad. *)
Theorem collate_fn_empty (tok : tokenizer) (max_length : Z) :
  collate_fn [] tok max_length = inl RuntimeError.
Proof. reflexivity. Qed.

(** X14. When the longest ids are shorter than the target length and the
    longest labels are longer than it, [collate_fn] raises [RuntimeError]:
    the ids are padded, and the padding for the labels has a negative
    width (line 171). *)
Theorem collate_fn_labels_too_long (instances : list example) (tok : tokenizer)
    (max_length : Z) :
  instances <> [] ->
  Z.of_nat (max_list (map length (map ex_input_ids instances))) < max_length ->
  max_length < Z.of_nat (max_list (map length (map ex_labels instances))) ->
  collate_fn instances tok max_length = inl RuntimeError.
Proof.
  intros Hne Hids Hlab.
  assert (Hi : map ex_input_ids instances <> []) by (by destruct instances).
  assert (Hl : map ex_labels instances <> []) by (by destruct instances).
  unfold collate_fn.
  rewrite (pad_sequence_ok _ _ Hi), (pad_sequence_ok _ _ Hl). cbn [ebind].
  rewrite !ncols_padded by done.
  destruct (Z.ltb_spec (Z.of_nat (max_list (map length (map ex_input_ids instances))))
                       max_length) as [_|?]; [|lia].
  unfold torch_full at 1.
  destruct (Z.ltb_spec (max_length
                        - Z.of_nat (max_list (map length (map ex_input_ids instances))))
                       0) as [?|_]; [lia|].
  cbn [ebind]. rewrite torch_cat_tube. cbn [ebind].
  unfold torch_full.
  destruct (Z.ltb_spec (max_length
                        - Z.of_nat (max_list (map length (map ex_labels instances))))
                       0) as [_|?]; [|lia].
  reflexivity.
Qed.

Lemma collate_fn_labels_too_long_witness :
  collate_fn [Example_ [5; 6] [5; 6; 7; 8] None] tok_demo 3 = inl RuntimeError.
Proof.
  apply (collate_fn_labels_too_long [Example_ [5; 6] [5; 6; 7; 8] None] tok_demo 3).
  - discriminate.
  - simpl. lia.
  - simpl. lia.
Defined.

Lemma image_entries_missing (instances : list example) :
  Exists (fun e => ex_image e = None) instances ->
  image_entries instances = inl KeyError.
Proof.
  induction instances as [|e rest IH]; intros Hex.
  - by apply Exists_nil in Hex.
  - cbn [image_entries]. destruct (ex_image e) as [x|] eqn:He; [|done].
    apply Exists_cons in Hex as [Hex|Hex]; [congruence|].
    by rewrite (IH Hex).
Qed.

(** X15. For examples with as many labels as ids each: when the first
    example has an [image] key and some example has none, [collate_fn]
    raises [KeyError]; when the first example has no [image] key, the batch
    has no [images] entry, whatever images the other examples carry: only
    the first example is asked (line 184). *)
Theorem collate_fn_image_keys (first : example) (rest : list example)
    (tok : tokenizer) (max_length : Z) :
  Forall (fun e => length (ex_input_ids e) = length (ex_labels e)) (first :: rest) ->
  (ex_image first <> None ->
   Exists (fun e => ex_image e = None) rest ->
   collate_fn (first :: rest) tok max_length = inl KeyError) /\
  (ex_image first = None ->
   exists b, collate_fn (first :: rest) tok max_length = inr b /\
             b_images b = None).
Proof.
  intros Heq. rewrite collate_fn_rows by done.
  unfold collate_images. rewrite py_index_0. cbn [ebind]. split.
  - intros Hfirst Hex. destruct (ex_image first) as [x|] eqn:Hx; [|done].
    rewrite image_entries_missing; [done|]. by apply Exists_cons_tl.
  - intros ->. cbn [ebind]. eauto.
Qed.

Lemma collate_fn_image_keys_witness :
  collate_fn [Example_ [5] [5] (Some (Some img_a)); Example_ [6] [6] None]
             tok_demo 2 = inl KeyError /\
  exists b, collate_fn [Example_ [6] [6] None; Example_ [5] [5] (Some (Some img_a))]
                       tok_demo 2 = inr b /\ b_images b = None.
Proof.
  split.
  - apply (collate_fn_image_keys (Example_ [5] [5] (Some (Some img_a)))
             [Example_ [6] [6] None] tok_demo 2).
    + repeat constructor.
    + discriminate.
    + by left.
  - apply (collate_fn_image_keys (Example_ [6] [6] None)
             [Example_ [5] [5] (Some (Some img_a))] tok_demo 2).
    + repeat constructor.
    + reflexivity.
Defined.

Lemma all_same_shape_none (images : list (option tensor)) :
  None ∈ images -> all_same_shape images = false.
Proof.
  intros Hin. unfold all_same_shape.
  destruct (forallb _ images) eqn:Hall; [|done].
  rewrite forallb_forall in Hall.
  by specialize (Hall None (proj1 (list_elem_of_In _ _) Hin)).
Qed.

Lemma image_entries_elem (instances : list example) (images : list (option tensor)) :
  image_entries instances = inr images ->
  map ex_image instances = map Some images.
Proof.
  revert images. induction instances as [|e rest IH]; intros images H.
  - by injection H as <-.
  - cbn [image_entries] in H. destruct (ex_image e) as [x|] eqn:He; [|done].
    destruct (image_entries rest) as [err|xs] eqn:Hrest; [done|].
    injection H as <-. cbn [map]. by rewrite He, (IH xs).
Qed.

(** X16. For a non-empty list of examples with as many labels as ids each:
    when every example has an [image] key and the image of one of them is
    [None], [collate_fn] returns the images as the list of the entries of
    the examples, in their order, the [None] among them: nothing is stacked
    and nothing is raised. *)
Theorem collate_fn_image_none (instances : list example) (tok : tokenizer)
    (max_length : Z) :
  instances <> [] ->
  Forall (fun e => length (ex_input_ids e) = length (ex_labels e)) instances ->
  Forall (fun e => ex_image e <> None) instances ->
  Exists (fun e => ex_image e = Some None) instances ->
  exists b images,
    collate_fn instances tok max_length = inr b /\
    b_images b = Some (Unstacked images) /\
    map ex_image instances = map Some images.
Proof.
  intros Hne Heq Hkeys Hnone. rewrite collate_fn_rows by done.
  destruct (image_entries_ok _ Hkeys) as [images Himages].
  pose proof (image_entries_elem _ _ Himages) as Hmap.
  assert (Hin : None ∈ images).
  { apply Exists_exists in Hnone as (e & He & Hx).
    assert (Hsome : Some None ∈ map Some images).
    { rewrite <- Hmap, <- Hx. by apply list_elem_of_fmap_2. }
    apply list_elem_of_fmap in Hsome as (x & [= <-] & Hx'). done. }
  destruct instances as [|first rest]; [done|].
  unfold collate_images. rewrite py_index_0. cbn [ebind].
  apply Forall_cons in Hkeys as [Hfirst _].
  destruct (ex_image first) as [x|] eqn:Hx; [|done].
  rewrite Himages. cbn [ebind]. rewrite (all_same_shape_none _ Hin).
  eexists _, images. done.
Qed.

Lemma collate_fn_image_none_witness :
  exists b images,
    collate_fn [Example_ [5] [5] (Some (Some img_a)); Example_ [6] [6] (Some None)]
               tok_demo 2 = inr b /\
    b_images b = Some (Unstacked images) /\
    [Some (Some img_a); Some None] = map Some images.
Proof.
  apply (collate_fn_image_none
           [Example_ [5] [5] (Some (Some img_a)); Example_ [6] [6] (Some None)]
           tok_demo 2).
  - discriminate.
  - repeat constructor.
  - repeat constructor; discriminate.
  - right. by left.
Defined.

Lemma padded_row_resize (W k : nat) (v : Z) (s : list Z) :
  (k <= W)%nat -> (length s <= W)%nat ->
  padded_row W k v s = take k s ++ replicate (k - length s) v.
Proof.
  intros Hk Hs. unfold padded_row.
  rewrite take_app, take_replicate. do 2 f_equal. lia.
Qed.

(** The batch of a collation that goes through, for target length and
    [model_max_length] that are not negative. *)
Lemma collate_fn_batch (instances : list example) (tok : tokenizer)
    (max_length : Z) :
  instances <> [] ->
  Forall (fun e => length (ex_input_ids e) = length (ex_labels e)) instances ->
  image_keys_consistent instances ->
  0 <= max_length -> 0 <= model_max_length tok ->
  let k := Z.to_nat (Z.min max_length (model_max_length tok)) in
  let ids := map (fun e => take k (ex_input_ids e)
                           ++ replicate (k - length (ex_input_ids e))
                                        (pad_token_id tok)) instances in
  exists images,
    collate_fn instances tok max_length
    = inr (Batch ids
                 (map (fun e => take k (ex_labels e)
                                ++ replicate (k - length (ex_labels e)) IGNORE_INDEX)
                      instances)
                 (map (map (fun x => negb (x =? pad_token_id tok))) ids)
                 images).
Proof.
  intros Hne Heq Hkeys HT Hmml k ids.
  rewrite collate_fn_rows by done.
  destruct (collate_images_ok _ Hne Hkeys) as [images ->]. cbn [ebind].
  exists images.
  set (W := Nat.max (max_raw_length instances) (Z.to_nat max_length)).
  destruct (labels_length_le _ Heq W) as [Hi Hl]; [lia|].
  assert (HL : slice_stop W (Z.min max_length (model_max_length tok)) = k).
  { rewrite slice_stop_nonneg by lia. unfold k. lia. }
  rewrite HL.
  assert (Hk : (k <= W)%nat) by (unfold k; lia).
  assert (Hrows : forall v (f : example -> list Z),
             Forall (fun e => length (f e) <= W)%nat instances ->
             map (padded_row W k v) (map f instances)
             = map (fun e => take k (f e) ++ replicate (k - length (f e)) v)
                   instances).
  { intros v f Hf. rewrite map_map. apply map_ext_in.
    intros e He%list_elem_of_In. apply padded_row_resize; [done|].
    rewrite Forall_forall in Hf. by apply Hf. }
  by rewrite !Hrows.
Qed.



(** X18. When no id of an example is the padding id, its row of
    [attention_mask] is [True] on its own tokens that the batch keeps (the
    first [min(len, k)] positions) and [False] on the padding after them. *)
Theorem collate_fn_attention_mask (instances : list example) (tok : tokenizer)
    (max_length : Z) :
  instances <> [] ->
  Forall (fun e => length (ex_input_ids e) = length (ex_labels e)) instances ->
  image_keys_consistent instances ->
  0 <= max_length -> 0 <= model_max_length tok ->
  let k := Z.to_nat (Z.min max_length (model_max_length tok)) in
  exists b, collate_fn instances tok max_length = inr b /\
    forall i e, instances !! i = Some e ->
      pad_token_id tok ∉ ex_input_ids e ->
      b_attention_mask b !! i
      = Some (replicate (Nat.min (length (ex_input_ids e)) k) true
              ++ replicate (k - length (ex_input_ids e)) false).
Proof.
  intros Hne Heq Hkeys HT Hmml k.
  destruct (collate_fn_batch instances tok max_length Hne Heq Hkeys HT Hmml)
    as [images ->].
  eexists. split; [reflexivity|]. cbn [b_attention_mask].
  intros i e Hie Hpad. fold k. rewrite map_map.
  change (map ?f instances) with (f <$> instances).
  rewrite list_lookup_fmap, Hie. cbn [fmap option_fmap option_map]. f_equal.
  rewrite map_app. f_equal.
  - change (map ?f (take k ?l)) with (f <$> take k l).
    rewrite (const_fmap _ _ true).
    + rewrite length_take. f_equal. lia.
    + intros j x Hx. apply negb_true_iff, Z.eqb_neq. intros ->.
      apply Hpad. apply lookup_take_Some in Hx as [Hx _].
      by eapply list_elem_of_lookup_2.
  - change (map ?f (replicate ?n ?x)) with (f <$> replicate n x).
    by rewrite fmap_replicate, Z.eqb_refl.
Qed.

Lemma collate_fn_attention_mask_witness :
  exists b, collate_fn batch_demo tok_demo 5 = inr b /\
    b_attention_mask b !! 0%nat = Some [true; true; true; false; false] /\
    b_attention_mask b !! 1%nat = Some [true; true; false; false; false].
Proof.
  destruct (collate_fn_attention_mask batch_demo tok_demo 5) as [b [Hb Hmask]].
  - discriminate.
  - repeat constructor.
  - left. reflexivity.
  - lia.
  - simpl. lia.
  - exists b. split; [exact Hb|]. split.
    + rewrite (Hmask 0%nat (Example_ [5; 6; 7] [5; 6; 7] None) eq_refl);
        [reflexivity|].
      intros Hin. apply list_elem_of_In in Hin. simpl in Hin.
      destruct Hin as [?|[?|[?|[]]]]; discriminate.
    + rewrite (Hmask 1%nat (Example_ [8; 2] [8; 2] None) eq_refl);
        [reflexivity|].
      intros Hin. apply list_elem_of_In in Hin. simpl in Hin.
      destruct Hin as [?|[?|[]]]; discriminate.
Defined.

(** ** From the dataset to the batch *)

Lemma images_of_one_shape (instances : list example) (sh : list nat) :
  Forall (fun ex => exists t, ex_image ex = Some (Some t) /\ shape t = sh) instances ->
  exists imgs, map ex_image instances = map (fun t => Some (Some t)) imgs /\
               Forall (fun t => shape t = sh) imgs.
Proof.
  induction 1 as [|ex rest (t & Ht & Hsh) _ (imgs & Hmap & Hall)].
  - exists []. split; [done|constructor].
  - exists (t :: imgs). cbn [map]. rewrite Ht, Hmap. split; [done|by constructor].
Qed.

Lemma collate_images_stacked (instances : list example) (imgs : list tensor)
    (sh : list nat) :
  instances <> [] ->
  map ex_image instances = map (fun t => Some (Some t)) imgs ->
  Forall (fun t => shape t = sh) imgs ->
  collate_images instances
  = inr (Some (Stacked (Tensor (length instances :: sh) (concat (map data imgs))))).
Proof.
  intros Hne Hmap Hall.
  assert (Hlen : length imgs = length instances).
  { apply (f_equal length) in Hmap. by rewrite !length_map in Hmap. }
  destruct instances as [|first rest]; [done|].
  destruct imgs as [|t0 imgs]; [done|].
  unfold collate_images. rewrite py_index_0. cbn [ebind].
  rewrite (image_entries_tensors _ _ Hmap).
  injection Hmap as Hfirst Hrest. rewrite Hfirst. cbn [ebind].
  assert (Hsame : all_same_shape (map Some (t0 :: imgs)) = true).
  { apply all_same_shape_spec. intros t t' Ht Ht'.
    rewrite Forall_forall in Hall. by rewrite (Hall t Ht), (Hall t' Ht'). }
  rewrite Hsame.
  unfold all_same_shape in Hsame. cbn [map head] in Hsame.
  unfold torch_stack. cbn [map].
  match goal with |- context [if ?c then _ else _] =>
    replace c with true by (symmetry; exact Hsame) end.
  cbn [ebind]. do 3 f_equal.
  apply Forall_inv in Hall. rewrite Hall. rewrite <- Hlen. f_equal.
  - f_equal. change (Some t0 :: map Some imgs) with (map Some (t0 :: imgs)).
    by rewrite length_map.
  - change (Some t0 :: map Some imgs) with (map Some (t0 :: imgs)).
    by rewrite map_map.
Qed.

Section FetchCollate.

Variable sep : pystr.
Variable Image_open_rgb : pystr -> exn + pil_image.
Variable Image_resize_bicubic : pil_image -> Z * Z -> exn + pil_image.

(** X19. Examples that fetches of one dataset returned always collate: for
    a non-empty list of them, a tokenizer and a target length that are not
    negative, [collate_fn] returns a batch with one row of ids and of
    labels per example, of length [min(max_length, model_max_length)], and
    with an [images] entry. When the processor of the dataset makes tensors
    of one shape, [images] is the stacked tensor of that shape behind the
    batch size. *)
Theorem getitem_collate (self : dataset) (instances : list example)
    (tok : tokenizer) (max_length : Z) :
  instances <> [] ->
  Forall (fun ex => exists i h h',
            getitem sep Image_open_rgb Image_resize_bicubic self i h = (inr ex, h'))
         instances ->
  0 <= max_length -> 0 <= model_max_length tok ->
  exists b,
    collate_fn instances tok max_length = inr b /\
    length (b_input_ids b) = length instances /\
    length (b_labels b) = length instances /\
    Forall (fun r => Z.of_nat (length r) = Z.min max_length (model_max_length tok))
           (b_input_ids b) /\
    Forall (fun r => Z.of_nat (length r) = Z.min max_length (model_max_length tok))
           (b_labels b) /\
    (exists entry, b_images b = Some entry) /\
    (forall sh,
       (forall img t, preprocess (processor self) img = inr t -> shape t = sh) ->
       exists stacked,
         b_images b = Some (Stacked stacked) /\
         shape stacked = length instances :: sh).
Proof.
  intros Hne Hfetched HT Hmml.
  assert (Heq : Forall (fun e => length (ex_input_ids e) = length (ex_labels e))
                       instances).
  { eapply Forall_impl; [exact Hfetched|]. intros ex (i & h & h' & Hex). simpl.
    destruct (getitem_inv _ _ _ _ _ _ _ _ Hex)
      as (it & f & img & img' & t & conv & _ & _ & _ & _ & _ & _ & _ & Hlab).
    by rewrite Hlab. }
  assert (Himgs : Forall (fun ex => exists t,
                            ex_image ex = Some (Some t) /\
                            exists img, preprocess (processor self) img = inr t)
                         instances).
  { eapply Forall_impl; [exact Hfetched|]. intros ex (i & h & h' & Hex). simpl.
    destruct (getitem_inv _ _ _ _ _ _ _ _ Hex)
      as (it & f & img & img' & t & conv & _ & _ & _ & _ & Ht & Himage & _).
    exists t. split; [done|]. by exists img'. }
  assert (Hkeys : Forall (fun e => ex_image e <> None) instances).
  { eapply Forall_impl; [exact Himgs|]. intros ex (t & Ht & _). simpl.
    by rewrite Ht. }
  assert (Hcons : image_keys_consistent instances).
  { destruct instances; [done|]. by right. }
  destruct (collate_images_ok _ Hne Hcons) as [images Himages].
  rewrite collate_fn_rows by done. rewrite Himages. cbn [ebind].
  eexists. split; [reflexivity|].
  cbn [b_input_ids b_labels b_images]. rewrite !length_map.
  split; [done|]. split; [done|].
  set (W := Nat.max (max_raw_length instances) (Z.to_nat max_length)).
  destruct (labels_length_le _ Heq W) as [Hi Hl]; [lia|].
  assert (HL : Z.of_nat (Nat.min (slice_stop W (Z.min max_length (model_max_length tok))) W)
               = Z.min max_length (model_max_length tok)).
  { rewrite slice_stop_nonneg by lia. lia. }
  split; [|split; [|split]].
  - eapply Forall_impl; [apply padded_rows_length, Hi|].
    simpl. intros r ->. exact HL.
  - eapply Forall_impl; [apply padded_rows_length, Hl|].
    simpl. intros r ->. exact HL.
  - destruct instances as [|first rest]; [done|].
    apply Forall_cons in Hkeys as [Hfirst Hrest].
    unfold collate_images in Himages. rewrite py_index_0 in Himages.
    cbn [ebind] in Himages.
    destruct (ex_image first) as [x|]; [|done].
    destruct (image_entries (first :: rest)) as [e|entries]; [done|].
    cbn [ebind] in Himages.
    destruct (all_same_shape entries).
    + destruct (torch_stack entries) as [e|stacked]; [done|].
      injection Himages as <-. eauto.
    + injection Himages as <-. eauto.
  - intros sh Hshape.
    assert (Hone : Forall (fun ex => exists t, ex_image ex = Some (Some t) /\ shape t = sh)
                          instances).
    { eapply Forall_impl; [exact Himgs|]. intros ex (t & Ht & img & Himg). simpl.
      exists t. split; [done|]. by eapply Hshape. }
    destruct (images_of_one_shape _ _ Hone) as (imgs & Hmap & Hall).
    rewrite (collate_images_stacked _ _ _ Hne Hmap Hall) in Himages.
    injection Himages as <-. eexists. split; [reflexivity|]. done.
Qed.

End FetchCollate.

Lemma getitem_collate_witness :
  exists b,
    collate_fn [Example_ [100; 35; 102; 100; 119; 13; 2]
                         [100; 35; 102; 100; 119; 13; 2] (Some (Some img_a))]
               tok_demo 4 = inr b /\
    length (b_input_ids b) = 1%nat /\
    length (b_labels b) = 1%nat /\
    Forall (fun r => Z.of_nat (length r) = 4) (b_input_ids b) /\
    Forall (fun r => Z.of_nat (length r) = 4) (b_labels b) /\
    (exists entry, b_images b = Some entry) /\
    (forall sh,
       (forall img t, preprocess (processor ds_demo) img = inr t -> shape t = sh) ->
       exists stacked,
         b_images b = Some (Stacked stacked) /\
         shape stacked = 1%nat :: sh).
Proof.
  apply (getitem_collate sep_demo open_demo resize_demo ds_demo
           [Example_ [100; 35; 102; 100; 119; 13; 2]
                     [100; 35; 102; 100; 119; 13; 2] (Some (Some img_a))]
           tok_demo 4).
  - discriminate.
  - constructor; [|constructor].
    exists 0, heap_demo,
      (snd (getitem sep_demo open_demo resize_demo ds_demo 0 heap_demo)).
    vm_compute. reflexivity.
  - lia.
  - simpl. lia.
Defined.

(** ** Further edge behaviour *)



(** X21. The first loop of [preprocess_plain] is not undone by the
    assertion: when two-turn conversations are followed by one that has not
    two turns, [AssertionError] is raised and the first turns of the
    conversations before it are left blank in the store, the other dicts as
    they were. *)
Theorem preprocess_plain_partial_blanking sep (good : list (list loc))
    (bad : list loc) (rest : list (list loc)) (tok : tokenizer)
    (h : gmap loc sentence) :
  Forall (fun source => length source = 2%nat) good ->
  allocated h good ->
  length bad <> 2%nat ->
  fst (preprocess_plain sep (good ++ bad :: rest) tok h) = inl AssertionError /\
  forall l,
    snd (preprocess_plain sep (good ++ bad :: rest) tok h) !! l
    = if decide (l ∈ first_turns good) then blank_sentence <$> h !! l else h !! l.
Proof.
  intros Htwo Halloc Hbad.
  assert (Hrun : plain_conversations sep (good ++ bad :: rest) h
                 = (inl AssertionError,
                    foldl (fun h l => alter blank_sentence l h) h (first_turns good))).
  { revert h Halloc. induction good as [|source good IH]; intros h Halloc.
    - cbn [app plain_conversations first_turns omap foldl].
      erewrite bind_inl; [reflexivity|].
      unfold py_assert. by rewrite (proj2 (Nat.eqb_neq _ _) Hbad).
    - apply Forall_cons in Htwo as [Hlen Htwo].
      apply Forall_cons in Halloc as [Hsource Halloc].
      destruct source as [|s0 [|s1 [|? ?]]]; try discriminate.
      apply Forall_cons in Hsource as [[a Ha] Hsource].
      apply Forall_cons in Hsource as [[b Hb] _].
      change (([s0; s1] :: good) ++ bad :: rest)
        with ([s0; s1] :: (good ++ bad :: rest)).
      destruct (plain_conversations_cons sep s0 s1 (good ++ bad :: rest) h a b Ha Hb)
        as [v1 [_ ->]].
      rewrite (insert_blank_alter _ _ _ Ha).
      erewrite bind_inl; [reflexivity|].
      apply IH; [done|].
      eapply Forall_impl; [exact Halloc|]. intros src Hsrc. simpl in *.
      eapply Forall_impl; [exact Hsrc|]. intros l Hl. simpl in *.
      by apply allocated_alter. }
  unfold preprocess_plain. erewrite bind_inl; [|exact Hrun]. cbn [fst snd].
  split; [done|]. intros l. by apply lookup_foldl_alter_idem.
Qed.

Lemma preprocess_plain_partial_blanking_witness :
  fst (preprocess_plain sep_demo [[1%positive; 2%positive]; [3%positive]]
                        tok_demo heap_two) = inl AssertionError /\
  snd (preprocess_plain sep_demo [[1%positive; 2%positive]; [3%positive]]
                        tok_demo heap_two) !! 1%positive
    = Some (Sentence (py "human") []).
Proof.
  destruct (preprocess_plain_partial_blanking sep_demo [[1%positive; 2%positive]]
              [3%positive] [] tok_demo heap_two) as [Herr Hstore].
  - by repeat constructor.
  - repeat constructor; eexists; reflexivity.
  - discriminate.
  - split; [exact Herr|]. rewrite Hstore. reflexivity.
Defined.

Section GetItemErrors.

Variable sep : pystr.
Variable Image_open_rgb : pystr -> exn + pil_image.
Variable Image_resize_bicubic : pil_image -> Z * Z -> exn + pil_image.

(** X22. A fetch of a record without [image] key raises [AssertionError],
    and a fetch whose image file does not open raises the error of the
    opening; both leave the store as it is, no copy of the conversation has
    been made yet. *)
Theorem getitem_image_errors (self : dataset) (i : Z) (h : gmap loc sentence)
    (it : item) :
  py_index (list_data_dict self) i = inr it ->
  (image it = None ->
   getitem sep Image_open_rgb Image_resize_bicubic self i h
   = (inl AssertionError, h)) /\
  (forall f e, image it = Some f ->
     Image_open_rgb (os_path_join (image_root self) f) = inl e ->
     getitem sep Image_open_rgb Image_resize_bicubic self i h = (inl e, h)).
Proof.
  intros Hit. split.
  - intros Hnone. unfold getitem.
    step_with (apply lift_eq, Hit).
    step_with reflexivity. step_with reflexivity.
    erewrite bind_inl; [reflexivity|].
    unfold has_image. by rewrite Hnone.
  - intros f e Hf Hopen. unfold getitem.
    step_with (apply lift_eq, Hit).
    step_with reflexivity. step_with reflexivity.
    step_with (unfold has_image; rewrite Hf; reflexivity).
    step_with (apply lift_eq, Hit).
    step_with (rewrite Hf; reflexivity).
    erewrite bind_inl; [reflexivity|]. by apply lift_eq.
Qed.

(** X23. In a dataset built by [__init__], every index within
    [-len <= i < len] is of a record with an image file: the assertion of
    line 115 passes, and the fetch goes on to open the file; if the opening
    fails, its error is the result. *)
Theorem init_getitem_reaches_file (tok : tokenizer) (p2s : bool)
    (data : list item) (proc : image_processor) (self : dataset) (i : Z)
    (h : gmap loc sentence) :
  init tok p2s data proc = inr self ->
  - Z.of_nat (len self) <= i < Z.of_nat (len self) ->
  exists it f,
    py_index (list_data_dict self) i = inr it /\
    it ∈ data /\
    image it = Some f /\
    forall e, Image_open_rgb (os_path_join (image_root self) f) = inl e ->
      getitem sep Image_open_rgb Image_resize_bicubic self i h = (inl e, h).
Proof.
  intros Hinit Hi.
  destruct (py_index_in_range (list_data_dict self) i Hi) as [it Hit].
  assert (Hin : it ∈ list_data_dict self) by (by eapply py_index_elem_of).
  unfold init in Hinit. rewrite init_loop in Hinit. cbn [app] in Hinit.
  destruct (crop_size_height proc =? crop_size_width proc); [|done].
  injection Hinit as <-. cbn [list_data_dict image_root] in *.
  apply list_elem_of_In, filter_In in Hin as [Hdata Hhas].
  unfold has_image in Hhas. destruct (image it) as [f|] eqn:Hf; [|done].
  exists it, f. split; [done|]. split; [by apply list_elem_of_In|].
  split; [done|]. intros e Hopen. unfold getitem.
  cbn [list_data_dict image_root].
  step_with (apply lift_eq, Hit).
  step_with reflexivity. step_with reflexivity.
  step_with (unfold has_image; rewrite Hf; reflexivity).
  step_with (apply lift_eq, Hit).
  step_with (rewrite Hf; reflexivity).
  erewrite bind_inl; [reflexivity|]. by apply lift_eq.
Qed.

End GetItemErrors.

Lemma getitem_image_errors_witness :
  getitem sep_demo open_demo resize_demo
          (Dataset tok_demo true (123, 116, 103) (py "/data")
                   [Item None [1%positive; 2%positive]] proc_demo) 0 heap_demo
    = (inl AssertionError, heap_demo) /\
  getitem sep_demo open_demo resize_demo
          (Dataset tok_demo true (123, 116, 103) (py "/tmp")
                   [Item (Some (py "a.jpg")) [1%positive; 2%positive]] proc_demo)
          0 heap_demo
    = (inl FileNotFoundError, heap_demo).
Proof.
  split.
  - apply (getitem_image_errors sep_demo open_demo resize_demo
             (Dataset tok_demo true (123, 116, 103) (py "/data")
                      [Item None [1%positive; 2%positive]] proc_demo) 0 heap_demo
             (Item None [1%positive; 2%positive])); reflexivity.
  - apply (getitem_image_errors sep_demo open_demo resize_demo
             (Dataset tok_demo true (123, 116, 103) (py "/tmp")
                      [Item (Some (py "a.jpg")) [1%positive; 2%positive]] proc_demo)
             0 heap_demo (Item (Some (py "a.jpg")) [1%positive; 2%positive])
             eq_refl) with (f := py "a.jpg"); reflexivity.
Defined.

Lemma init_getitem_reaches_file_witness :
  exists self it f,
    init tok_demo true data_demo proc_demo = inr self /\
    py_index (list_data_dict self) (-1) = inr it /\
    it ∈ data_demo /\
    image it = Some f /\
    forall e, (fun _ : pystr => inl FileNotFoundError : exn + pil_image)
                (os_path_join (image_root self) f) = inl e ->
      getitem sep_demo (fun _ => inl FileNotFoundError) resize_demo self (-1)
              heap_demo = (inl e, heap_demo).
Proof.
  destruct (init tok_demo true data_demo proc_demo) as [e|self] eqn:Hinit;
    [discriminate Hinit|].
  destruct (init_getitem_reaches_file sep_demo (fun _ => inl FileNotFoundError)
              resize_demo tok_demo true data_demo proc_demo self (-1) heap_demo
              Hinit) as (it & f & H).
  - injection Hinit as <-. unfold len. simpl. lia.
  - exists self, it, f. split; [reflexivity|]. exact H.
Defined.
